(** * Hand tracker: background model, segmenter and finger counter

    A shallow embedding of [hand-detection.ipynb]: the three functions
    [calc_accum_avg], [segment] and [count_fingers] and the capture loop
    that drives them.

    Python passes arrays by reference and OpenCV writes into some of its
    arguments ([cv2.accumulateWeighted] into [dst], [cv2.circle] into
    [img]), so arrays live in an object store and the functions run in a
    small state-and-exception monad over it.

    Numbers.  [uint8] pixels and pixel coordinates are integers ([Z]).
    [float32]/[float64] values are kept as exact rationals ([Q]): the
    rounding of the floating-point unit is not modelled.  Distances are
    square roots of integers; the model keeps their squares and evaluates
    the truncation [int(0.9 * max_distance)] in integer arithmetic, and
    the link to the real-valued expression is proved over [R].

    Arrays.  An image is a non-empty rectangular list of rows; what
    OpenCV does with an empty array is not modelled. *)

From Stdlib Require Import ZArith QArith Qabs Qround Reals Lra Lia List.
From stdpp Require Import base list.

(** ** Arrays and the object store *)

Definition point : Type := Z * Z.          (* (x, y): column, row *)
Definition Contour : Type := list point.   (* an N x 1 x 2 int32 array *)

(** A two-dimensional array is a list of rows. *)
Abbreviation grid A := (list (list A)) (only parsing).

Inductive ndarray : Type :=
| U8 (px : grid Z)      (* dtype uint8 *)
| F32 (px : grid Q).    (* dtype float32 *)

Abbreviation ref := nat (only parsing).
Abbreviation heap := (list ndarray) (only parsing).

(** The shape of a grid: the length of every row. *)
Definition shape {A} (g : grid A) : list nat := length <$> g.

Definition pixel {A} (g : grid A) (i j : nat) : option A :=
  g !! i ≫= fun row => row !! j.

Definition same_shape {A B} (a : grid A) (b : grid B) : bool :=
  bool_decide (shape a = shape b).

Definition map_grid {A B} (f : A -> B) (g : grid A) : grid B :=
  (fun row : list A => f <$> row) <$> g.

Definition zip_grid {A B C} (f : A -> B -> C) (a : grid A) (b : grid B)
  : grid C :=
  zip_with (zip_with f) a b.

(** ** Exceptions and the monad *)

Inductive exn : Type :=
| cv_error          (* cv2.error *)
| ValueError        (* numpy: no extreme point in an empty hull *)
| AttributeError    (* attribute access on None *)
| invalid_ref.      (* a dangling reference; Python never produces one *)

Inductive outcome (A : Type) : Type :=
| Ret (a : A)
| Raise (e : exn).
Arguments Ret {A} a.
Arguments Raise {A} e.

Definition M (A : Type) : Type := heap -> outcome A * heap.

Definition ret {A} (a : A) : M A := fun h => (Ret a, h).

Definition raise {A} (e : exn) : M A := fun h => (Raise e, h).

Definition bind {A B} (m : M A) (f : A -> M B) : M B :=
  fun h =>
    match m h with
    | (Ret a, h') => f a h'
    | (Raise e, h') => (Raise e, h')
    end.

Declare Scope py_scope.
Delimit Scope py_scope with py.
Notation "'let*' x ':=' m 'in' k" := (bind m (fun x => k))
  (at level 10, x name, m at level 100, k at level 200,
   format "'[v' 'let*'  x  :=  m  'in' '/' k ']'") : py_scope.
Open Scope py_scope.

(** A new array object. *)
Definition alloc (o : ndarray) : M ref :=
  fun h => (Ret (length h), h ++ [o]).

Definition load (r : ref) : M ndarray :=
  fun h =>
    match h !! r with
    | Some o => (Ret o, h)
    | None => (Raise invalid_ref, h)
    end.

(** An in-place write into an existing array object. *)
Definition store (r : ref) (o : ndarray) : M unit :=
  fun h => (Ret tt, <[r := o]> h).

(** ** numpy and OpenCV array operations *)

(** [np.float32(a)] and the implicit conversions to float. *)
Definition to_float (o : ndarray) : grid Q :=
  match o with
  | U8 px => map_grid inject_Z px
  | F32 px => px
  end.

Definition np_float32 (a : ref) : M ref :=
  let* o := load a in alloc (F32 (to_float o)).

(** The C cast of a float to [uint8]: truncation toward zero, then the
    low eight bits. *)
Definition Qtrunc (q : Q) : Z := Z.quot (Qnum q) (Zpos (Qden q)).

Definition to_uint8 (q : Q) : Z := (Qtrunc q) mod 256.

(** [a.astype('uint8')]: always a new array. *)
Definition astype_uint8 (a : ref) : M ref :=
  let* o := load a in
  match o with
  | U8 px => alloc (U8 px)
  | F32 px => alloc (U8 (map_grid to_uint8 px))
  end.

(** [a.copy()] *)
Definition ndarray_copy (a : ref) : M ref :=
  let* o := load a in alloc o.

(** [cv2.accumulateWeighted(src, dst, alpha)]:
    [dst <- (1 - alpha) * dst + alpha * src], written into [dst]. *)
Definition accumulate (alpha : Q) (d s : Q) : Q :=
  ((1 - alpha) * d + alpha * s)%Q.

Definition accumulateWeighted (src dst : ref) (alpha : Q) : M unit :=
  let* s := load src in
  let* d := load dst in
  match d with
  | F32 dpx =>
      if same_shape (to_float s) dpx
      then store dst (F32 (zip_grid (accumulate alpha) dpx (to_float s)))
      else raise cv_error
  | U8 _ => raise cv_error
  end.

(** ** Background model *)

Definition accumulated_weight : Q := 1 # 2.    (* 0.5 *)

Definition calc_accum_avg (frame : ref) (accumulated_weight : Q)
    (background : option ref) : M ref :=
  match background with
  | None => np_float32 frame
  | Some background =>
      let* frame_float32 := np_float32 frame in
      let* _ := accumulateWeighted frame_float32 background
                  accumulated_weight in
      ret background
  end.

(** ** Segmenter: array operations *)

(** [cv2.absdiff(src1, src2)]: both arrays of one size and type. *)
Definition cv2_absdiff (src1 src2 : ref) : M ref :=
  let* a := load src1 in
  let* b := load src2 in
  match a, b with
  | U8 x, U8 y =>
      if same_shape x y
      then alloc (U8 (zip_grid (fun p q => Z.abs (p - q)) x y))
      else raise cv_error
  | F32 x, F32 y =>
      if same_shape x y
      then alloc (F32 (zip_grid (fun p q => Qabs (p - q)) x y))
      else raise cv_error
  | _, _ => raise cv_error
  end.

Definition saturate_u8 (v : Z) : Z := Z.max 0 (Z.min 255 v).

Definition Qltb (a b : Q) : bool := negb (Qle_bool b a).

(** [cv2.threshold(src, thresh, maxval, cv2.THRESH_BINARY)]; the array
    of the returned pair. *)
Definition cv2_threshold (src : ref) (thresh maxval : Z) : M ref :=
  let* a := load src in
  match a with
  | U8 px =>
      alloc (U8 (map_grid
                   (fun v => if thresh <? v then saturate_u8 maxval else 0)%Z
                   px))
  | F32 px =>
      alloc (F32 (map_grid
                    (fun v => if Qltb (inject_Z thresh) v
                              then inject_Z maxval else 0%Q)
                    px))
  end.

Inductive approx : Type := CHAIN_APPROX_SIMPLE | CHAIN_APPROX_NONE.

(** Python's [max(first :: rest, key=key)]: the running maximum is
    replaced only by a strictly larger key. *)
Fixpoint py_max {A} (key : A -> Q) (best : A) (rest : list A) : A :=
  match rest with
  | [] => best
  | item :: rest' =>
      if Qltb (key best) (key item)
      then py_max key item rest'
      else py_max key best rest'
  end.

(** ** Finger counter: array operations and geometry *)

(** [np.zeros(a.shape[:2], dtype='uint8')] *)
Definition np_zeros_like (a : ref) : M ref :=
  let* o := load a in
  match o with
  | U8 px => alloc (U8 (map_grid (fun _ => 0%Z) px))
  | F32 px => alloc (U8 (map_grid (fun _ => 0%Z) px))
  end.

(** One pixel of [cv2.bitwise_and(src1, src2, mask=mask)]; the
    destination is new, so it is zero where the mask is. *)
Definition and_pixel (a b m : Z) : Z :=
  if (m =? 0)%Z then 0%Z else Z.land a b.

Definition cv2_bitwise_and (src1 src2 mask : ref) : M ref :=
  let* a := load src1 in
  let* b := load src2 in
  let* m := load mask in
  match a, b, m with
  | U8 x, U8 y, U8 k =>
      if same_shape x y && same_shape x k
      then alloc (U8 (zip_grid (fun ab m => and_pixel ab.1 ab.2 m)
                               (zip_grid pair x y) k))
      else raise cv_error
  | _, _, _ => raise cv_error
  end.

(** [a.argmin()] and [a.argmax()] of a flattened array: the first index
    of the extreme value. *)
Fixpoint arg_best (better : Z -> Z -> bool) (best_i : nat) (best : Z)
    (i : nat) (l : list Z) : nat :=
  match l with
  | [] => best_i
  | v :: l' =>
      if better v best
      then arg_best better i v (S i) l'
      else arg_best better best_i best (S i) l'
  end.

Definition argmin (l : list Z) : option nat :=
  match l with
  | [] => None
  | v :: l' => Some (arg_best Z.ltb 0 v 1 l')
  end.

Definition argmax (l : list Z) : option nat :=
  match l with
  | [] => None
  | v :: l' => Some (arg_best (fun v best => Z.ltb best v) 0 v 1 l')
  end.

(** [tuple(conv_hull[sel(conv_hull[:, :, k])][0])].  The empty list
    stands for the hull of a contour without points: OpenCV hands back
    no array for it, and the subscript or the [argmin] raises. *)
Definition extreme (sel : list Z -> option nat) (coord : point -> Z)
    (conv_hull : Contour) : M point :=
  match sel (map coord conv_hull) with
  | None => raise ValueError
  | Some i => ret (nth i conv_hull (0, 0)%Z)
  end.

(** The point [extreme] returns on a hull that has one. *)
Definition hull_point (sel : list Z -> option nat) (coord : point -> Z)
    (conv_hull : Contour) : point :=
  match sel (map coord conv_hull) with
  | None => (0, 0)%Z
  | Some i => nth i conv_hull (0, 0)%Z
  end.

(** The square of the Euclidean distance between two pixels. *)
Definition sq_distance (p q : point) : Z :=
  ((p.1 - q.1) ^ 2 + (p.2 - q.2) ^ 2)%Z.

(** The square of [euclidean_distances([c], Y=pts)[0].max()]. *)
Definition max_sq_distance (c : point) (pts : list point) : Z :=
  foldr Z.max 0%Z (map (sq_distance c) pts).

(** [int(0.9 * d)] for [d] the square root of [m]: the integer part of
    [sqrt(81 * m) / 10]. *)
Definition int_09_sqrt (m : Z) : Z := (Z.sqrt (81 * m) / 10)%Z.

(** [cv2.boundingRect(contour)]: [(x, y, w, h)]. *)
Definition boundingRect (contour : Contour) : Z * Z * Z * Z :=
  match contour with
  | [] => (0, 0, 0, 0)%Z
  | p :: rest =>
      let x0 := foldr Z.min p.1 (map fst rest) in
      let y0 := foldr Z.min p.2 (map snd rest) in
      let x1 := foldr Z.max p.1 (map fst rest) in
      let y1 := foldr Z.max p.2 (map snd rest) in
      (x0, y0, x1 - x0 + 1, y1 - y0 + 1)%Z
  end.

(** [np.pi], the double nearest to pi. *)
Definition np_pi : Q := 884279719003555 # 281474976710656.

(** The two tests of the counting loop, as the source writes them. *)
Definition out_of_wrist (cY : Z) (contour : Contour) : bool :=
  let '(x, y, w, h) := boundingRect contour in
  Qltb (inject_Z (y + h))
       (inject_Z cY + inject_Z cY * (1 # 4)).

Definition limit_points (radius : Z) (contour : Contour) : bool :=
  Qltb (inject_Z (Z.of_nat (length contour)))
       (2 * np_pi * inject_Z radius * (1 # 4)).

(** The loop [for contour in contours: ... count += 1]. *)
Fixpoint count_loop (cY radius : Z) (contours : list Contour) (count : Z)
  : Z :=
  match contours with
  | [] => count
  | contour :: rest =>
      count_loop cY radius rest
        (if out_of_wrist cY contour && limit_points radius contour
         then count + 1 else count)%Z
  end.

(** ** Real-valued geometry, for the statements about the radius *)





(** ** Distance of a background state to a frame *)

Definition grid_sum (g : grid Q) : Q :=
  foldr Qplus 0%Q (map (foldr Qplus 0%Q) g).

(** The sum over all pixels of [|bg - frame|]. *)
Definition distance_to (bg : grid Q) (frame : grid Z) : Q :=
  grid_sum (zip_grid (fun b f => Qabs (b - inject_Z f)) bg frame).

(** Pixelwise equality of float arrays, up to the representation of a
    rational. *)
Definition grid_eq (a b : grid Q) : Prop :=
  Forall2 (Forall2 Qeq) a b.

(** ** Stand-ins for the OpenCV routines the pipeline is parametric in

    The pipeline below takes contour extraction, contour area, convex
    hull and circle drawing as parameters.  The functions of this module
    are simple implementations used to run it on concrete inputs. *)

Module Simple.

(** Shoelace formula: [|sum (x_i * y_{i+1} - x_{i+1} * y_i)| / 2]. *)
Fixpoint shoelace (first prev : point) (rest : Contour) : Z :=
  match rest with
  | [] => (prev.1 * first.2 - first.1 * prev.2)%Z
  | p :: rest' => (prev.1 * p.2 - p.1 * prev.2 + shoelace first p rest')%Z
  end.

Definition contourArea (contour : Contour) : Q :=
  match contour with
  | [] => 0%Q
  | p :: rest => (Z.abs (shoelace p p rest) # 2)%Q
  end.

(** Convex hull by the monotone chain: sort the points, then sweep once
    for the lower and once for the upper chain. *)
Definition point_leb (p q : point) : bool :=
  ((p.1 <? q.1) || ((p.1 =? q.1) && (p.2 <=? q.2)))%Z.

Fixpoint insert_point (p : point) (l : list point) : list point :=
  match l with
  | [] => [p]
  | q :: l' => if point_leb p q then p :: l else q :: insert_point p l'
  end.

Definition sort_points (l : list point) : list point :=
  foldr insert_point [] l.

Definition cross (o a b : point) : Z :=
  ((a.1 - o.1) * (b.2 - o.2) - (a.2 - o.2) * (b.1 - o.1))%Z.

Fixpoint push_point (p : point) (stack : list point) : list point :=
  match stack with
  | a :: ((b :: _) as below) =>
      if (cross b a p <=? 0)%Z then push_point p below else p :: stack
  | _ => p :: stack
  end.

Definition chain (pts : list point) : list point :=
  fold_left (fun stack p => push_point p stack) pts [].

Definition convexHull (contour : Contour) : Contour :=
  match sort_points contour with
  | [] => []
  | [p] => [p]
  | sorted =>
      rev (tail (chain sorted)) ++ rev (tail (chain (rev sorted)))
  end.

(** A ring of the given stroke width around [center]: the pixels whose
    distance to the centre is within half the width of [radius]. *)
Definition on_ring (center : point) (radius thickness : Z) (x y : Z)
  : bool :=
  let d2 := sq_distance center (x, y) in
  let lo := Z.max 0 (radius - thickness / 2) in
  let hi := (radius + thickness / 2)%Z in
  ((lo * lo <=? d2) && (d2 <=? hi * hi))%Z.

Definition circle (img : grid Z) (center : point)
    (radius color thickness : Z) : grid Z :=
  imap (fun i row =>
          imap (fun j v =>
                  if on_ring center radius thickness
                       (Z.of_nat j) (Z.of_nat i)
                  then color else v) row) img.

(** Contours of a mask whose foreground pixels are pairwise
    non-adjacent: one single-point contour per foreground pixel, in
    raster order. *)
Definition findContours (method : approx) (img : grid Z) : list Contour :=
  concat
    (imap (fun i row =>
             concat
               (imap (fun j v =>
                        if (v =? 0)%Z then []
                        else [[(Z.of_nat j, Z.of_nat i)]]) row)) img).

End Simple.

(** ** Sample inputs *)

Module Sample.

(** A 3 x 3 capture with one bright pixel, and a dark background. *)
Definition frame : grid Z := [[0; 0; 0]; [0; 255; 0]; [0; 0; 0]]%Z.
Definition dark : grid Q := [[0; 0; 0]; [0; 0; 0]; [0; 0; 0]]%Q.
Definition store : heap := [U8 frame; F32 dark].

(** A background of another size. *)
Definition wide : grid Q := [[0; 0; 0; 0]; [0; 0; 0; 0]; [0; 0; 0; 0]]%Q.

(** A 7 x 7 mask with one foreground pixel, in column 3 of row 0. *)
Definition mask : grid Z :=
  [[0; 0; 0; 255; 0; 0; 0]; [0; 0; 0; 0; 0; 0; 0]; [0; 0; 0; 0; 0; 0; 0];
   [0; 0; 0; 0; 0; 0; 0]; [0; 0; 0; 0; 0; 0; 0]; [0; 0; 0; 0; 0; 0; 0];
   [0; 0; 0; 0; 0; 0; 0]]%Z.

(** A diamond around [(3, 3)], and a flat contour of two points. *)
Definition diamond : Contour := [(3, 0); (6, 3); (3, 6); (0, 3)]%Z.
Definition flat : Contour := [(0, 3); (6, 3)]%Z.

End Sample.

(** ** The pipeline *)

Section Pipeline.

(** [cv2.findContours(image, cv2.RETR_EXTERNAL, method)[0]] *)
Variable findContours : approx -> grid Z -> list Contour.
(** [cv2.contourArea] *)
Variable contourArea : Contour -> Q.
(** [cv2.convexHull] *)
Variable convexHull : Contour -> Contour.
(** The pixels of [img] after [cv2.circle(img, center, radius, color,
    thickness)]. *)
Variable circle : grid Z -> point -> Z -> Z -> Z -> grid Z.
(** Drawing keeps the size of the image. *)
Hypothesis circle_shape : forall img center radius color thickness,
  shape (circle img center radius color thickness) = shape img.

Definition cv2_findContours (image : ref) (method : approx)
  : M (list Contour) :=
  let* o := load image in
  match o with
  | U8 px => ret (findContours method px)
  | F32 _ => raise cv_error
  end.

(** [cv2.circle] draws into [img]. *)
Definition cv2_circle (img : ref) (center : point)
    (radius color thickness : Z) : M unit :=
  let* o := load img in
  match o with
  | U8 px => store img (U8 (circle px center radius color thickness))
  | F32 _ => raise cv_error
  end.

Definition segment (frame background : ref) (threshold_min : Z)
  : M (option (ref * Contour)) :=
  let* background_u8 := astype_uint8 background in
  let* diff := cv2_absdiff background_u8 frame in
  let* thresholded := cv2_threshold diff threshold_min 255 in
  let* image := ndarray_copy thresholded in
  let* contours := cv2_findContours image CHAIN_APPROX_SIMPLE in
  match contours with
  | [] => ret None
  | first :: rest =>
      let hand_segment := py_max contourArea first rest in
      ret (Some (thresholded, hand_segment))
  end.

(** The centre and the radius of the sampling ring, from the hull. *)
Definition hand_center (top bottom left right : point) : point :=
  ((left.1 + right.1) / 2, (top.2 + bottom.2) / 2)%Z.

Definition hand_radius (top bottom left right : point) : Z :=
  int_09_sqrt
    (max_sq_distance (hand_center top bottom left right)
                     [left; right; top; bottom]).

Definition count_fingers (thresholded : ref) (hand_segment : Contour)
  : M Z :=
  let conv_hull := convexHull hand_segment in
  let* top := extreme argmin snd conv_hull in
  let* bottom := extreme argmax snd conv_hull in
  let* left := extreme argmin fst conv_hull in
  let* right := extreme argmax fst conv_hull in
  let '(cX, cY) := hand_center top bottom left right in
  let radius := hand_radius top bottom left right in
  let* circular_roi := np_zeros_like thresholded in
  let* _ := cv2_circle circular_roi (cX, cY) radius 255 10 in
  let* circular_roi :=
    cv2_bitwise_and thresholded thresholded circular_roi in
  let* image := ndarray_copy circular_roi in
  let* contours := cv2_findContours image CHAIN_APPROX_NONE in
  ret (count_loop cY radius contours 0).

(** ** The capture loop *)

Record session : Type := Session {
  num_frames : Z;
  background : option ref;
  fingers : option Z        (* the last count put on display, if any *)
}.

Definition session0 : session :=
  {| num_frames := 0; background := None; fingers := None |}.

(** One iteration of [while True], on the grey, blurred region of
    interest [gray]. *)
Definition tick (gray : ref) (s : session) : M session :=
  if (num_frames s <? 60)%Z then
    let* bg := calc_accum_avg gray accumulated_weight (background s) in
    ret {| num_frames := num_frames s + 1;
           background := Some bg;
           fingers := None |}
  else
    match background s with
    | None => raise AttributeError
    | Some bg =>
        let* hand := segment gray bg 25 in
        match hand with
        | Some (thresholded, hand_segment) =>
            let* n := count_fingers thresholded hand_segment in
            ret {| num_frames := num_frames s + 1;
                   background := Some bg;
                   fingers := Some n |}
        | None =>
            ret {| num_frames := num_frames s + 1;
                   background := Some bg;
                   fingers := fingers s |}
        end
    end.

(** The loop over a sequence of captured regions; every capture is a
    new array. *)
Fixpoint run (frames : list (grid Z)) (s : session) : M session :=
  match frames with
  | [] => ret s
  | F :: frames' =>
      let* gray := alloc (U8 F) in
      let* s' := tick gray s in
      run frames' s'
  end.

(** [k] background updates in a row with captures of one scene [F]. *)
Fixpoint warm_up (k : nat) (F : grid Z) (background : option ref)
  : M (option ref) :=
  match k with
  | O => ret background
  | S k' =>
      let* gray := alloc (U8 F) in
      let* bg := calc_accum_avg gray accumulated_weight background in
      warm_up k' F (Some bg)
  end.

(** The binarised difference of a frame and a background, as [segment]
    composes it: cast, [cv2.absdiff], [cv2.threshold]. *)
Definition difference_mask (F : grid Z) (B : grid Q) (threshold_min : Z)
  : grid Z :=
  map_grid (fun v => if threshold_min <? v then saturate_u8 255 else 0)%Z
    (zip_grid (fun p q => Z.abs (p - q)) (map_grid to_uint8 B) F).

(** The ring-intersected mask of [count_fingers]. *)
Definition ring_mask (T : grid Z) (center : point) (radius : Z) : grid Z :=
  zip_grid (fun ab m => and_pixel ab.1 ab.2 m) (zip_grid pair T T)
    (circle (map_grid (fun _ => 0%Z) T) center radius 255 10).

(** Every object of [h] is still there, unchanged, in [h']. *)
Definition preserved (h h' : heap) : Prop :=
  forall r o, h !! r = Some o -> h' !! r = Some o.

(** [m] leaves the first [n] objects of the store alone: it writes only
    into objects allocated later. *)
Definition safe {A} (n : nat) (m : M A) : Prop :=
  forall h, n <= length h ->
    (forall r o, r < n -> h !! r = Some o -> (m h).2 !! r = Some o) /\
    n <= length (m h).2.

(** The per-contour test as the spec words it. *)
Definition is_finger (cY radius : Z) (contour : Contour) : Prop :=
  let '(x, y, w, h) := boundingRect contour in
  (inject_Z (y + h) < inject_Z cY + (1 # 4) * inject_Z cY)%Q /\
  (inject_Z (Z.of_nat (length contour))
   < (1 # 4) * (2 * np_pi * inject_Z radius))%Q.

(** Every pixel of the frame is within [thr] of the background pixel
    cast to [uint8]; the two grids have one shape. *)
Definition within_threshold (thr : Z) (B : grid Q) (F : grid Z) : Prop :=
  Forall2 (Forall2 (fun b f => (Z.abs (to_uint8 b - f) <= thr)%Z)) B F.

(** The pixels of a [uint8] image. *)
Definition uint8_grid (F : grid Z) : Prop :=
  Forall (Forall (fun f => (0 <= f < 256)%Z)) F.


(** The state of the loop while it watches one unchanging scene [F]:
    nothing is on display, and the background, once set, holds [F]. *)
Definition watching (F : grid Z) (num_frames : Z) (background : option ref)
    (fingers : option Z) (h : heap) : Prop :=
  fingers = None /\
  (0 <= num_frames)%Z /\
  match background with
  | None => num_frames = 0%Z
  | Some b =>
      exists B, h !! b = Some (F32 B) /\ grid_eq B (map_grid inject_Z F)
  end.

(** [m] never raises the exception [e]. *)
Definition never {A} (e : exn) (m : M A) : Prop :=
  forall h, (m h).1 <> Raise e.

#[global] Instance is_finger_dec cY radius contour :
  Decision (is_finger cY radius contour).
Proof.
  unfold is_finger. destruct (boundingRect contour) as [[[x y] w] hh].
  apply and_dec.
  - destruct (Qlt_le_dec (inject_Z (y + hh))
                (inject_Z cY + (1 # 4) * inject_Z cY)) as [H | H].
    + left; exact H.
    + right; intros H'. exact (Qlt_not_le _ _ H' H).
  - destruct (Qlt_le_dec (inject_Z (Z.of_nat (length contour)))
                ((1 # 4) * (2 * np_pi * inject_Z radius))) as [H | H].
    + left; exact H.
    + right; intros H'. exact (Qlt_not_le _ _ H' H).
Defined.

(** * Proofs *)

(** ** Grids *)

Lemma shape_map_grid {A B} (f : A -> B) (g : grid A) :
  shape (map_grid f g) = shape g.
Proof.
  unfold shape, map_grid. rewrite <- list_fmap_compose.
  apply list_fmap_ext. intros i row _. apply length_fmap.
Qed.

Lemma shape_zip_grid {A B C} (f : A -> B -> C) (a : grid A) (b : grid B) :
  shape a = shape b -> shape (zip_grid f a b) = shape a.
Proof.
  unfold shape, zip_grid. revert b.
  induction a as [|ra a IH]; intros [|rb b] E; simpl in *; try congruence.
  injection E as E1 E2. f_equal.
  - rewrite length_zip_with. lia.
  - now apply IH.
Qed.

Lemma pixel_map_grid {A B} (f : A -> B) (g : grid A) i j :
  pixel (map_grid f g) i j = f <$> pixel g i j.
Proof.
  unfold pixel, map_grid. rewrite list_lookup_fmap.
  destruct (g !! i) as [row|]; simpl; [|reflexivity].
  apply list_lookup_fmap.
Qed.

Lemma pixel_zip_grid {A B C} (f : A -> B -> C) a b i j x y :
  pixel a i j = Some x -> pixel b i j = Some y ->
  pixel (zip_grid f a b) i j = Some (f x y).
Proof.
  unfold pixel, zip_grid. intros Ha Hb. rewrite lookup_zip_with.
  destruct (a !! i) as [ra|]; simpl in *; [|discriminate].
  destruct (b !! i) as [rb|]; simpl in *; [|discriminate].
  rewrite lookup_zip_with, Ha. simpl. rewrite Hb. reflexivity.
Qed.

Lemma same_shape_true {A B} (a : grid A) (b : grid B) :
  shape a = shape b -> same_shape a b = true.
Proof. intros E. unfold same_shape. now apply bool_decide_eq_true. Qed.

(** ** The object store *)

Lemma preserved_refl h : preserved h h.
Proof. intros r o H. exact H. Qed.

Lemma preserved_trans h1 h2 h3 :
  preserved h1 h2 -> preserved h2 h3 -> preserved h1 h3.
Proof. intros H12 H23 r o H. apply H23, H12, H. Qed.

Lemma preserved_alloc h o : preserved h (h ++ [o]).
Proof. intros r x H. now apply lookup_app_l_Some. Qed.

Lemma preserved_length h h' : preserved h h' -> length h <= length h'.
Proof.
  intros H. destruct (decide (length h <= length h')) as [|N]; [assumption|].
  assert (L : length h' < length h) by lia.
  destruct (lookup_lt_is_Some_2 h (length h') L) as [o Ho].
  apply H in Ho. apply lookup_lt_Some in Ho. lia.
Qed.

(** A write to an object allocated after [h] leaves [h] alone. *)
Lemma preserved_store_new h h' r o :
  preserved h h' -> length h <= r -> preserved h (<[r := o]> h').
Proof.
  intros H L q x Hq. rewrite list_lookup_insert_ne.
  - now apply H.
  - apply lookup_lt_Some in Hq. lia.
Qed.

Lemma lookup_new h (o : ndarray) : (h ++ [o]) !! length h = Some o.
Proof. now apply list_lookup_middle. Qed.

Lemma lookup_old h (o x : ndarray) r :
  h !! r = Some x -> (h ++ [o]) !! r = Some x.
Proof. apply lookup_app_l_Some. Qed.

Create HintDb store.
#[local] Hint Resolve lookup_new lookup_old preserved_refl preserved_alloc
  : store.

(** ** Running the monad *)

Lemma bind_Ret {A B} (m : M A) (f : A -> M B) h a h' :
  m h = (Ret a, h') -> bind m f h = f a h'.
Proof. intros E. unfold bind. now rewrite E. Qed.

Lemma bind_Raise {A B} (m : M A) (f : A -> M B) h e h' :
  m h = (Raise e, h') -> bind m f h = (Raise e, h').
Proof. intros E. unfold bind. now rewrite E. Qed.

Lemma load_run h r o : h !! r = Some o -> load r h = (Ret o, h).
Proof. intros E. unfold load. now rewrite E. Qed.

Lemma np_float32_run h a o :
  h !! a = Some o ->
  np_float32 a h = (Ret (length h), h ++ [F32 (to_float o)]).
Proof.
  intros E. unfold np_float32. now rewrite (bind_Ret _ _ _ _ _ (load_run _ _ _ E)).
Qed.

Lemma astype_uint8_run h a B :
  h !! a = Some (F32 B) ->
  astype_uint8 a h = (Ret (length h), h ++ [U8 (map_grid to_uint8 B)]).
Proof.
  intros E. unfold astype_uint8.
  now rewrite (bind_Ret _ _ _ _ _ (load_run _ _ _ E)).
Qed.

Lemma ndarray_copy_run h a o :
  h !! a = Some o -> ndarray_copy a h = (Ret (length h), h ++ [o]).
Proof.
  intros E. unfold ndarray_copy.
  now rewrite (bind_Ret _ _ _ _ _ (load_run _ _ _ E)).
Qed.

Lemma accumulateWeighted_run h src dst S D alpha :
  h !! src = Some (F32 S) -> h !! dst = Some (F32 D) ->
  shape S = shape D ->
  accumulateWeighted src dst alpha h
  = (Ret tt, <[dst := F32 (zip_grid (accumulate alpha) D S)]> h).
Proof.
  intros Es Ed E. unfold accumulateWeighted.
  rewrite (bind_Ret _ _ _ _ _ (load_run _ _ _ Es)).
  rewrite (bind_Ret _ _ _ _ _ (load_run _ _ _ Ed)).
  simpl. now rewrite (same_shape_true _ _ E).
Qed.

Lemma cv2_absdiff_run h a b X Y :
  h !! a = Some (U8 X) -> h !! b = Some (U8 Y) -> shape X = shape Y ->
  cv2_absdiff a b h
  = (Ret (length h), h ++ [U8 (zip_grid (fun p q => Z.abs (p - q)) X Y)]).
Proof.
  intros Ea Eb E. unfold cv2_absdiff.
  rewrite (bind_Ret _ _ _ _ _ (load_run _ _ _ Ea)).
  rewrite (bind_Ret _ _ _ _ _ (load_run _ _ _ Eb)).
  now rewrite (same_shape_true _ _ E).
Qed.

Lemma cv2_threshold_run h a X thresh maxval :
  h !! a = Some (U8 X) ->
  cv2_threshold a thresh maxval h
  = (Ret (length h),
     h ++ [U8 (map_grid
                 (fun v => if (thresh <? v)%Z then saturate_u8 maxval
                           else 0%Z) X)]).
Proof.
  intros Ea. unfold cv2_threshold.
  now rewrite (bind_Ret _ _ _ _ _ (load_run _ _ _ Ea)).
Qed.

Lemma cv2_findContours_run h a X method :
  h !! a = Some (U8 X) ->
  cv2_findContours a method h = (Ret (findContours method X), h).
Proof.
  intros Ea. unfold cv2_findContours.
  now rewrite (bind_Ret _ _ _ _ _ (load_run _ _ _ Ea)).
Qed.

Lemma np_zeros_like_run h a X :
  h !! a = Some (U8 X) ->
  np_zeros_like a h
  = (Ret (length h), h ++ [U8 (map_grid (fun _ => 0%Z) X)]).
Proof.
  intros Ea. unfold np_zeros_like.
  now rewrite (bind_Ret _ _ _ _ _ (load_run _ _ _ Ea)).
Qed.

Lemma cv2_circle_run h img X center radius color thickness :
  h !! img = Some (U8 X) ->
  cv2_circle img center radius color thickness h
  = (Ret tt, <[img := U8 (circle X center radius color thickness)]> h).
Proof.
  intros Ea. unfold cv2_circle.
  now rewrite (bind_Ret _ _ _ _ _ (load_run _ _ _ Ea)).
Qed.

Lemma cv2_bitwise_and_run h a b m X Y K :
  h !! a = Some (U8 X) -> h !! b = Some (U8 Y) -> h !! m = Some (U8 K) ->
  shape X = shape Y -> shape X = shape K ->
  cv2_bitwise_and a b m h
  = (Ret (length h),
     h ++ [U8 (zip_grid (fun ab m => and_pixel ab.1 ab.2 m)
                        (zip_grid pair X Y) K)]).
Proof.
  intros Ea Eb Em E1 E2. unfold cv2_bitwise_and.
  rewrite (bind_Ret _ _ _ _ _ (load_run _ _ _ Ea)).
  rewrite (bind_Ret _ _ _ _ _ (load_run _ _ _ Eb)).
  rewrite (bind_Ret _ _ _ _ _ (load_run _ _ _ Em)).
  now rewrite (same_shape_true _ _ E1), (same_shape_true _ _ E2).
Qed.

(** ** Background model *)

Lemma calc_accum_avg_first_run h frame F w :
  h !! frame = Some (U8 F) ->
  calc_accum_avg frame w None h
  = (Ret (length h), h ++ [F32 (map_grid inject_Z F)]).
Proof.
  intros HF. unfold calc_accum_avg. exact (np_float32_run _ _ _ HF).
Qed.

(** C6.  The first background update, with the background still [None],
    returns a new float array whose every pixel is the pixel of the frame
    converted to float: nothing is averaged, and the frame object itself
    is not the state. *)
Theorem calc_accum_avg_first (h : heap) (frame : ref) (F : grid Z) (w : Q) :
  h !! frame = Some (U8 F) ->
  exists h',
    calc_accum_avg frame w None h = (Ret (length h), h') /\
    h' !! length h = Some (F32 (map_grid inject_Z F)) /\
    h' !! frame = Some (U8 F) /\
    forall i j f, pixel F i j = Some f ->
      pixel (map_grid inject_Z F) i j = Some (inject_Z f).
Proof.
  intros HF. exists (h ++ [F32 (map_grid inject_Z F)]).
  split; [|split; [|split]].
  - now apply calc_accum_avg_first_run.
  - auto with store.
  - auto with store.
  - intros i j f Hf. now rewrite pixel_map_grid, Hf.
Qed.

Lemma calc_accum_avg_next_run h frame bg F B w :
  h !! frame = Some (U8 F) -> h !! bg = Some (F32 B) ->
  shape F = shape B ->
  calc_accum_avg frame w (Some bg) h
  = (Ret bg,
     <[bg := F32 (zip_grid (accumulate w) B (map_grid inject_Z F))]>
       (h ++ [F32 (map_grid inject_Z F)])).
Proof.
  intros HF HB E. unfold calc_accum_avg.
  rewrite (bind_Ret _ _ _ _ _ (np_float32_run _ _ _ HF)).
  erewrite bind_Ret; [reflexivity|].
  apply accumulateWeighted_run; auto with store.
  now rewrite shape_map_grid.
Qed.

Lemma calc_accum_avg_next_mismatch h frame bg F B w :
  h !! frame = Some (U8 F) -> h !! bg = Some (F32 B) ->
  shape F <> shape B ->
  (calc_accum_avg frame w (Some bg) h).1 = Raise cv_error.
Proof.
  intros HF HB E. unfold calc_accum_avg.
  rewrite (bind_Ret _ _ _ _ _ (np_float32_run _ _ _ HF)).
  erewrite bind_Raise; [reflexivity|].
  unfold accumulateWeighted.
  rewrite (bind_Ret _ _ _ _ _ (load_run _ _ _ (lookup_new h _))).
  rewrite (bind_Ret _ _ _ _ _ (load_run _ _ _ (lookup_old h _ _ _ HB))).
  unfold same_shape.
  rewrite bool_decide_eq_false_2; [reflexivity|].
  cbn [to_float]. now rewrite shape_map_grid.
Qed.


(** ** Convergence of the background *)

Lemma accumulate_fixed (w b f : Q) : (b == f -> accumulate w b f == f)%Q.
Proof. intros E. unfold accumulate. rewrite E. ring. Qed.

Lemma grid_eq_shape (a b : grid Q) : grid_eq a b -> shape a = shape b.
Proof.
  unfold grid_eq, shape. induction 1 as [|ra rb a b Hr _ IH]; simpl.
  - reflexivity.
  - f_equal; [|exact IH]. now apply Forall2_length in Hr.
Qed.

Lemma grid_eq_accumulate (w : Q) (B P : grid Q) :
  grid_eq B P -> grid_eq (zip_grid (accumulate w) B P) P.
Proof.
  unfold grid_eq, zip_grid.
  induction 1 as [|rb rp B P Hr _ IH]; simpl; constructor; [|exact IH].
  clear IH. induction Hr as [|b p rb rp Hbp _ IHr]; simpl; constructor.
  - now apply accumulate_fixed.
  - exact IHr.
Qed.

Lemma grid_eq_refl (a : grid Q) : grid_eq a a.
Proof.
  unfold grid_eq. induction a as [|row a IH]; constructor; [|exact IH].
  induction row; constructor; [reflexivity|assumption].
Qed.

Lemma row_distance_zero (rb : list Q) (rf : list Z) :
  Forall2 Qeq rb (inject_Z <$> rf) ->
  (foldr Qplus 0 (zip_with (fun b f => Qabs (b - inject_Z f)) rb rf) == 0)%Q.
Proof.
  revert rf. induction rb as [|b rb IH]; intros [|f rf] H;
    try reflexivity.
  apply Forall2_cons_1 in H. destruct H as [Hb Hr].
  cbn [zip_with foldr]. rewrite (IH _ Hr), Hb.
  assert (E0 : (inject_Z f - inject_Z f == 0)%Q) by ring.
  rewrite E0. reflexivity.
Qed.

Lemma distance_zero (B : grid Q) (F : grid Z) :
  grid_eq B (map_grid inject_Z F) -> (distance_to B F == 0)%Q.
Proof.
  unfold grid_eq, distance_to, grid_sum, zip_grid, map_grid.
  revert F. induction B as [|rb B IH]; intros [|rf F] H;
    try reflexivity.
  apply Forall2_cons_1 in H. destruct H as [Hr HB].
  cbn [zip_with foldr map]. rewrite (IH _ HB), (row_distance_zero _ _ Hr).
  reflexivity.
Qed.

Lemma warm_up_initialised (k : nat) (F : grid Z) :
  forall (h : heap) (b : ref) (B : grid Q),
    h !! b = Some (F32 B) -> grid_eq B (map_grid inject_Z F) ->
    exists B' h',
      warm_up k F (Some b) h = (Ret (Some b), h') /\
      h' !! b = Some (F32 B') /\
      grid_eq B' (map_grid inject_Z F).
Proof.
  induction k as [|k IH]; intros h b B Hb HB.
  - exists B, h. auto.
  - assert (E : shape F = shape B).
    { rewrite (grid_eq_shape _ _ HB). now rewrite shape_map_grid. }
    assert (HF : (h ++ [U8 F]) !! length h = Some (U8 F))
      by auto with store.
    assert (Hb' : (h ++ [U8 F]) !! b = Some (F32 B)) by auto with store.
    pose proof (calc_accum_avg_next_run _ _ _ _ _ accumulated_weight
                  HF Hb' E) as Run.
    match type of Run with _ = (_, ?h2) =>
      destruct (IH h2 b (zip_grid (accumulate accumulated_weight) B
                           (map_grid inject_Z F))) as (B' & h' & R & L & G)
    end.
    + apply list_lookup_insert_eq. rewrite !length_app.
      apply lookup_lt_Some in Hb. lia.
    + now apply grid_eq_accumulate.
    + exists B', h'. split; [|auto].
      cbn [warm_up]. unfold bind at 1, alloc at 1.
      rewrite (bind_Ret _ _ _ _ _ Run). exact R.
Qed.

Lemma warm_up_unset_run (k : nat) (F : grid Z) (h : heap) :
  exists B h',
    warm_up (S k) F None h = (Ret (Some (S (length h))), h') /\
    h' !! S (length h) = Some (F32 B) /\
    grid_eq B (map_grid inject_Z F).
Proof.
  assert (HF : (h ++ [U8 F]) !! length h = Some (U8 F)) by auto with store.
  pose proof (calc_accum_avg_first_run _ _ _ accumulated_weight HF) as Run.
  assert (Len : length (h ++ [U8 F]) = S (length h))
    by (rewrite length_app; cbn; lia).
  rewrite Len in Run.
  destruct (warm_up_initialised k F _ (S (length h)) _
              ltac:(rewrite <- Len; apply lookup_new) (grid_eq_refl _))
    as (B' & h' & R & L & G).
  exists B', h'. split; [|split; [exact L|exact G]].
  cbn [warm_up]. unfold bind at 1, alloc at 1.
  rewrite (bind_Ret _ _ _ _ _ Run). exact R.
Qed.

(** C8.  With captures of one unchanging scene [F], the background after
    any [k >= 1] updates from the unset state holds the values of [F]:
    its distance to [F] is zero, below every positive bound from the
    first update on, so the distance decreases strictly for as long as
    it is not below the bound (which is never). *)
Theorem warm_up_converges (h : heap) (F : grid Z) (k : nat) :
  1 <= k ->
  exists b B h' B1 h1,
    warm_up k F None h = (Ret (Some b), h') /\
    h' !! b = Some (F32 B) /\
    warm_up (S k) F None h = (Ret (Some b), h1) /\
    h1 !! b = Some (F32 B1) /\
    grid_eq B (map_grid inject_Z F) /\
    (distance_to B F == 0)%Q /\
    forall eps : Q, (0 < eps)%Q ->
      (distance_to B F < eps)%Q /\
      (distance_to B1 F < distance_to B F \/ distance_to B F < eps)%Q.
Proof.
  intros Hk. destruct k as [|k]; [lia|].
  destruct (warm_up_unset_run k F h) as (B & h' & R & L & G).
  destruct (warm_up_unset_run (S k) F h) as (B1 & h1 & R1 & L1 & _).
  exists (S (length h)), B, h', B1, h1.
  repeat (split; [assumption|]).
  pose proof (distance_zero _ _ G) as Z0.
  split; [exact Z0|]. intros eps He.
  assert (D : (distance_to B F < eps)%Q) by now rewrite Z0.
  split; [exact D|right; exact D].
Qed.

(** One update with a capture of the scene [F] halves the distance of
    any initialised background to [F]. *)
Lemma row_distance_halved (rb : list Q) (rf : list Z) :
  (foldr Qplus 0
     (zip_with (fun b f => Qabs (b - inject_Z f))
        (zip_with (accumulate accumulated_weight) rb (inject_Z <$> rf)) rf)
   == foldr Qplus 0 (zip_with (fun b f => Qabs (b - inject_Z f)) rb rf)
      * (1 # 2))%Q.
Proof.
  revert rf. induction rb as [|b rb IH]; intros [|f rf];
    try reflexivity.
  cbn [zip_with foldr fmap list_fmap]. rewrite IH.
  unfold accumulate, accumulated_weight.
  assert (E : ((1 - (1 # 2)) * b + (1 # 2) * inject_Z f - inject_Z f
               == (b - inject_Z f) * (1 # 2))%Q) by ring.
  rewrite E, Qabs_Qmult. change (Qabs (1 # 2)) with (1 # 2)%Q. ring.
Qed.

Lemma distance_halved (B : grid Q) (F : grid Z) :
  (distance_to (zip_grid (accumulate accumulated_weight) B
                  (map_grid inject_Z F)) F
   == distance_to B F * (1 # 2))%Q.
Proof.
  unfold distance_to, grid_sum, zip_grid, map_grid.
  revert F. induction B as [|rb B IH]; intros [|rf F];
    try reflexivity.
  cbn [zip_with foldr map fmap list_fmap].
  rewrite IH, row_distance_halved. ring.
Qed.

Lemma update_halves_distance (h : heap) (frame bg : ref)
    (F : grid Z) (B : grid Q) :
  h !! frame = Some (U8 F) -> h !! bg = Some (F32 B) ->
  shape F = shape B ->
  exists B' h',
    calc_accum_avg frame accumulated_weight (Some bg) h = (Ret bg, h') /\
    h' !! bg = Some (F32 B') /\
    (distance_to B' F == distance_to B F * (1 # 2))%Q.
Proof.
  intros HF HB E. eexists _, _.
  split; [exact (calc_accum_avg_next_run _ _ _ _ _ _ HF HB E)|].
  split; [|apply distance_halved].
  apply list_lookup_insert_eq.
  rewrite length_app. apply lookup_lt_Some in HB. lia.
Qed.

(** ** Segmenter *)

Lemma Qltb_lt (a b : Q) : Qltb a b = true <-> (a < b)%Q.
Proof.
  unfold Qltb. rewrite negb_true_iff. split.
  - intros H. apply Qnot_le_lt. intros L.
    apply Qle_bool_iff in L. congruence.
  - intros H. destruct (Qle_bool b a) eqn:E; [|reflexivity].
    apply Qle_bool_iff in E. exfalso. exact (Qlt_not_le _ _ H E).
Qed.

Lemma Qltb_ge (a b : Q) : Qltb a b = false <-> (b <= a)%Q.
Proof.
  unfold Qltb. rewrite negb_false_iff. apply Qle_bool_iff.
Qed.

(** [py_max] returns the first element of largest key: everything before
    it is strictly smaller, nothing after it is larger. *)
Lemma py_max_scan {A} (key : A -> Q) (rest : list A) :
  forall (seen later : list A) (best : A),
    Forall (fun c => (key c < key best)%Q) seen ->
    Forall (fun c => (key c <= key best)%Q) later ->
    exists pre post,
      seen ++ best :: later ++ rest = pre ++ py_max key best rest :: post /\
      Forall (fun c => (key c < key (py_max key best rest))%Q) pre /\
      Forall (fun c => (key c <= key (py_max key best rest))%Q) post.
Proof.
  induction rest as [|item rest IH]; intros seen later best Hs Hl.
  - exists seen, later. rewrite app_nil_r. auto.
  - cbn [py_max]. destruct (Qltb (key best) (key item)) eqn:E.
    + apply Qltb_lt in E.
      destruct (IH (seen ++ best :: later) [] item) as (pre & post & L & P).
      * apply Forall_app. split; [|constructor].
        -- eapply Forall_impl; [exact Hs|]. intros c Hc. cbn in Hc.
           eapply Qlt_trans; eassumption.
        -- exact E.
        -- eapply Forall_impl; [exact Hl|]. intros c Hc. cbn in Hc.
           eapply Qle_lt_trans; eassumption.
      * constructor.
      * exists pre, post. split; [|exact P].
        rewrite <- L. cbn [app]. now rewrite <- app_assoc.
    + apply Qltb_ge in E.
      destruct (IH seen (later ++ [item]) best Hs) as (pre & post & L & P).
      * apply Forall_app. split; [exact Hl|]. constructor; [exact E|].
        constructor.
      * exists pre, post. split; [|exact P].
        rewrite <- L. now rewrite <- app_assoc.
Qed.

Lemma py_max_first {A} (key : A -> Q) (first : A) (rest : list A) :
  exists pre post,
    first :: rest = pre ++ py_max key first rest :: post /\
    Forall (fun c => (key c < key (py_max key first rest))%Q) pre /\
    Forall (fun c => (key c <= key (py_max key first rest))%Q) post.
Proof.
  destruct (py_max_scan key rest [] [] first) as (pre & post & L & P);
    [constructor|constructor|].
  exists pre, post. split; [exact L|exact P].
Qed.

Lemma pixel_difference_mask (F : grid Z) (B : grid Q) thr i j b f :
  pixel B i j = Some b -> pixel F i j = Some f ->
  pixel (difference_mask F B thr) i j
  = Some (if (thr <? Z.abs (to_uint8 b - f))%Z then 255%Z else 0%Z).
Proof.
  intros Hb Hf. unfold difference_mask.
  rewrite pixel_map_grid.
  rewrite (pixel_zip_grid _ _ _ _ _ (to_uint8 b) f); [reflexivity| |exact Hf].
  now rewrite pixel_map_grid, Hb.
Qed.

Lemma shape_difference_mask (F : grid Z) (B : grid Q) thr :
  shape F = shape B -> shape (difference_mask F B thr) = shape F.
Proof.
  intros E. unfold difference_mask.
  rewrite shape_map_grid, shape_zip_grid; rewrite shape_map_grid; auto.
Qed.

(** What a call of [segment] on well-shaped arguments does. *)
Lemma segment_run (h : heap) (frame bg : ref) (F : grid Z) (B : grid Q)
    (thr : Z) :
  h !! frame = Some (U8 F) -> h !! bg = Some (F32 B) ->
  shape F = shape B ->
  exists (mask : ref) (h' : heap),
    preserved h h' /\
    h' !! mask = Some (U8 (difference_mask F B thr)) /\
    segment frame bg thr h
    = (Ret match findContours CHAIN_APPROX_SIMPLE (difference_mask F B thr)
           with
           | [] => None
           | first :: rest => Some (mask, py_max contourArea first rest)
           end, h').
Proof.
  intros HF HB E.
  set (h1 := h ++ [U8 (map_grid to_uint8 B)]).
  set (h2 := h1 ++ [U8 (zip_grid (fun p q => Z.abs (p - q))
                          (map_grid to_uint8 B) F)]).
  set (h3 := h2 ++ [U8 (difference_mask F B thr)]).
  set (h4 := h3 ++ [U8 (difference_mask F B thr)]).
  exists (length h2), h4. split; [|split].
  - subst h1 h2 h3 h4.
    repeat (eapply preserved_trans; [|apply preserved_alloc]).
    apply preserved_refl.
  - subst h4 h3. auto with store.
  - unfold segment.
    rewrite (bind_Ret _ _ _ _ _ (astype_uint8_run _ _ _ HB)). fold h1.
    rewrite (bind_Ret _ _ _ _ h2
               (cv2_absdiff_run h1 (length h) frame
                  (map_grid to_uint8 B) F ltac:(subst h1; auto with store)
                  ltac:(subst h1; auto with store)
                  ltac:(now rewrite shape_map_grid))).
    rewrite (bind_Ret _ _ _ _ h3
               (cv2_threshold_run h2 (length h1) _ thr 255
                  ltac:(subst h2; auto with store))).
    rewrite (bind_Ret _ _ _ _ h4
               (ndarray_copy_run h3 (length h2) _
                  ltac:(subst h3; auto with store))).
    rewrite (bind_Ret _ _ _ _ h4
               (cv2_findContours_run h4 (length h3) _ CHAIN_APPROX_SIMPLE
                  ltac:(subst h4; auto with store))).
    destruct (findContours CHAIN_APPROX_SIMPLE (difference_mask F B thr));
      reflexivity.
Qed.

(** C2.  On a frame and a background of one shape, a pair returned by
    [segment] holds the mask that is 255 exactly where the absolute
    difference between the frame and the background (cast to [uint8])
    exceeds the threshold and 0 elsewhere, and the first contour of
    largest area among the external contours of that mask. *)
Theorem segment_pair (h : heap) (frame bg : ref) (F : grid Z) (B : grid Q)
    (thr : Z) (mask : ref) (hand : Contour) (h' : heap) :
  h !! frame = Some (U8 F) -> h !! bg = Some (F32 B) ->
  shape F = shape B ->
  segment frame bg thr h = (Ret (Some (mask, hand)), h') ->
  exists Mk : grid Z,
    h' !! mask = Some (U8 Mk) /\
    shape Mk = shape F /\
    (forall i j b f, pixel B i j = Some b -> pixel F i j = Some f ->
       pixel Mk i j
       = Some (if (thr <? Z.abs (to_uint8 b - f))%Z then 255%Z else 0%Z)) /\
    exists pre post,
      findContours CHAIN_APPROX_SIMPLE Mk = pre ++ hand :: post /\
      Forall (fun c => (contourArea c < contourArea hand)%Q) pre /\
      Forall (fun c => (contourArea c <= contourArea hand)%Q) post.
Proof.
  intros HF HB E Run.
  destruct (segment_run h frame bg F B thr HF HB E) as (m & h1 & _ & L & R).
  rewrite R in Run.
  destruct (findContours CHAIN_APPROX_SIMPLE (difference_mask F B thr))
    as [|first rest] eqn:C; [discriminate|].
  injection Run as -> <- <-.
  exists (difference_mask F B thr).
  split; [exact L|]. split; [now apply shape_difference_mask|].
  split; [intros i j b f; apply pixel_difference_mask|].
  rewrite C. apply py_max_first.
Qed.


(** ** Finger counter *)

Lemma extreme_argmin_run (coord : point -> Z) (hull : Contour) (h : heap) :
  hull <> [] ->
  extreme argmin coord hull h = (Ret (hull_point argmin coord hull), h).
Proof.
  intros N. unfold extreme, hull_point.
  destruct hull as [|p hull]; [congruence|]. reflexivity.
Qed.

Lemma extreme_argmax_run (coord : point -> Z) (hull : Contour) (h : heap) :
  hull <> [] ->
  extreme argmax coord hull h = (Ret (hull_point argmax coord hull), h).
Proof.
  intros N. unfold extreme, hull_point.
  destruct hull as [|p hull]; [congruence|]. reflexivity.
Qed.

Lemma extreme_empty (sel : list Z -> option nat) (coord : point -> Z)
    (h : heap) :
  sel [] = None -> extreme sel coord [] h = (Raise ValueError, h).
Proof. intros E. unfold extreme. cbn [map]. now rewrite E. Qed.

(** What a call of [count_fingers] does on a contour with a hull. *)
Lemma count_fingers_run (h : heap) (thresholded : ref) (T : grid Z)
    (hand_segment : Contour) :
  h !! thresholded = Some (U8 T) ->
  convexHull hand_segment <> [] ->
  let hull := convexHull hand_segment in
  let top := hull_point argmin snd hull in
  let bottom := hull_point argmax snd hull in
  let left := hull_point argmin fst hull in
  let right := hull_point argmax fst hull in
  let center := hand_center top bottom left right in
  let radius := hand_radius top bottom left right in
  exists h',
    preserved h h' /\
    count_fingers thresholded hand_segment h
    = (Ret (count_loop center.2 radius
              (findContours CHAIN_APPROX_NONE (ring_mask T center radius))
              0%Z), h').
Proof.
  intros HT N hull top bottom left right center radius.
  set (Z0 := map_grid (fun _ => 0%Z) T).
  set (ring := circle Z0 center radius 255 10).
  set (h1 := h ++ [U8 Z0]).
  set (h2 := <[length h := U8 ring]> h1).
  set (h3 := h2 ++ [U8 (ring_mask T center radius)]).
  set (h4 := h3 ++ [U8 (ring_mask T center radius)]).
  assert (L2 : h2 !! length h = Some (U8 ring)).
  { subst h2 h1. apply list_lookup_insert_eq. rewrite length_app. simpl. lia. }
  assert (T2 : h2 !! thresholded = Some (U8 T)).
  { subst h2 h1. rewrite list_lookup_insert_ne.
    - auto with store.
    - apply lookup_lt_Some in HT. lia. }
  assert (P2 : preserved h h2).
  { subst h2 h1. apply preserved_store_new; [apply preserved_alloc|lia]. }
  exists h4. split.
  - subst h4 h3.
    repeat (eapply preserved_trans; [|apply preserved_alloc]). exact P2.
  - unfold count_fingers. fold hull.
    rewrite (bind_Ret _ _ _ _ _ (extreme_argmin_run snd hull h N)).
    rewrite (bind_Ret _ _ _ _ _ (extreme_argmax_run snd hull h N)).
    rewrite (bind_Ret _ _ _ _ _ (extreme_argmin_run fst hull h N)).
    rewrite (bind_Ret _ _ _ _ _ (extreme_argmax_run fst hull h N)).
    fold top bottom left right.
    destruct (hand_center top bottom left right) as [cX cY] eqn:EC.
    fold radius.
    rewrite (bind_Ret _ _ _ _ _ (np_zeros_like_run _ _ _ HT)).
    fold Z0 h1.
    rewrite (bind_Ret _ _ _ _ h2
               (cv2_circle_run h1 (length h) Z0 (cX, cY) radius 255 10
                  ltac:(subst h1; auto with store))).
    rewrite (bind_Ret _ _ _ _ h3
               (cv2_bitwise_and_run h2 thresholded thresholded (length h)
                  T T ring T2 T2 L2 eq_refl
                  ltac:(subst ring Z0; rewrite circle_shape;
                        now rewrite shape_map_grid))).
    rewrite (bind_Ret _ _ _ _ h4
               (ndarray_copy_run h3 (length h2) _
                  ltac:(subst h3; auto with store))).
    rewrite (bind_Ret _ _ _ _ h4
               (cv2_findContours_run h4 (length h3) _ CHAIN_APPROX_NONE
                  ltac:(subst h4; auto with store))).
    reflexivity.
Qed.

(** The two tests of the loop are the two inequalities of the spec. *)
Lemma tests_is_finger (cY radius : Z) (contour : Contour) :
  out_of_wrist cY contour && limit_points radius contour = true
  <-> is_finger cY radius contour.
Proof.
  unfold out_of_wrist, limit_points, is_finger.
  destruct (boundingRect contour) as [[[x y] w] hh].
  rewrite andb_true_iff, !Qltb_lt.
  assert (E1 : (inject_Z cY + inject_Z cY * (1 # 4)
                == inject_Z cY + (1 # 4) * inject_Z cY)%Q) by ring.
  assert (E2 : (2 * np_pi * inject_Z radius * (1 # 4)
                == (1 # 4) * (2 * np_pi * inject_Z radius))%Q) by ring.
  rewrite E1, E2. reflexivity.
Qed.

Lemma count_loop_filter (cY radius : Z) (contours : list Contour) :
  forall count,
    count_loop cY radius contours count
    = (count
       + Z.of_nat (length (filter (is_finger cY radius) contours)))%Z.
Proof.
  induction contours as [|contour rest IH]; intros count; cbn [count_loop].
  - cbn. lia.
  - rewrite IH, filter_cons.
    destruct (decide (is_finger cY radius contour)) as [Y | N].
    + apply tests_is_finger in Y. rewrite Y. cbn [length]. lia.
    + destruct (out_of_wrist cY contour && limit_points radius contour)
        eqn:E.
      * apply tests_is_finger in E. contradiction.
      * reflexivity.
Qed.

(** C1.  For a mask and a contour with a hull, [count_fingers] returns
    the number of contours of the ring-intersected mask that satisfy
    both [cY + 0.25 * cY > y + h] and [n < 0.25 * 2 * pi * r]; the loop
    counts a contour exactly when both hold. *)
Theorem count_fingers_counts (h : heap) (thresholded : ref) (T : grid Z)
    (hand_segment : Contour) :
  h !! thresholded = Some (U8 T) ->
  convexHull hand_segment <> [] ->
  let hull := convexHull hand_segment in
  let top := hull_point argmin snd hull in
  let bottom := hull_point argmax snd hull in
  let left := hull_point argmin fst hull in
  let right := hull_point argmax fst hull in
  let cY := (hand_center top bottom left right).2 in
  let radius := hand_radius top bottom left right in
  let contours :=
    findContours CHAIN_APPROX_NONE
      (ring_mask T (hand_center top bottom left right) radius) in
  (exists h',
     count_fingers thresholded hand_segment h
     = (Ret (Z.of_nat (length (filter (is_finger cY radius) contours))),
        h')) /\
  (forall contour rest count,
     count_loop cY radius (contour :: rest) count
     = count_loop cY radius rest
         (if decide (is_finger cY radius contour) then count + 1
          else count)%Z).
Proof.
  intros HT N hull top bottom left right cY radius contours. split.
  - destruct (count_fingers_run h thresholded T hand_segment HT N)
      as (h' & _ & R).
    exists h'. rewrite R. now rewrite count_loop_filter.
  - intros contour rest count. cbn [count_loop].
    destruct (decide (is_finger cY radius contour)) as [Y | No].
    + apply tests_is_finger in Y. now rewrite Y.
    + destruct (out_of_wrist cY contour && limit_points radius contour)
        eqn:E; [|reflexivity].
      apply tests_is_finger in E. contradiction.
Qed.

(** With radius 0 no contour passes the point-count test. *)
Lemma limit_points_zero (contour : Contour) :
  limit_points 0 contour = false.
Proof.
  unfold limit_points. apply Qltb_ge.
  assert (E : (2 * np_pi * inject_Z 0 * (1 # 4) == 0)%Q) by ring.
  rewrite E. change 0%Q with (inject_Z 0). rewrite <- Zle_Qle. lia.
Qed.

Lemma count_loop_zero (cY : Z) (contours : list Contour) :
  forall count, count_loop cY 0 contours count = count.
Proof.
  induction contours as [|c rest IH]; intros count; cbn [count_loop].
  - reflexivity.
  - rewrite limit_points_zero, andb_false_r. apply IH.
Qed.

Lemma hand_center_point (p : point) : hand_center p p p p = p.
Proof.
  destruct p as [x y]. unfold hand_center. cbn [fst snd].
  f_equal.
  - replace (x + x)%Z with (x * 2)%Z by lia. apply Z.div_mul. lia.
  - replace (y + y)%Z with (y * 2)%Z by lia. apply Z.div_mul. lia.
Qed.

Lemma hand_radius_point (p : point) : hand_radius p p p p = 0%Z.
Proof.
  unfold hand_radius. rewrite hand_center_point.
  unfold max_sq_distance, sq_distance. cbn [map foldr].
  rewrite !Z.sub_diag. reflexivity.
Qed.

(** C10.  For a contour of a single point, whose hull is that point,
    [count_fingers] returns 0 on every mask and does not raise: the four
    extreme points are that point, so the centre is the point and the
    radius is 0, and with radius 0 no contour passes the point-count
    test. *)
Theorem count_fingers_single_point (h : heap) (thresholded : ref)
    (T : grid Z) (p : point) :
  h !! thresholded = Some (U8 T) ->
  convexHull [p] = [p] ->
  hand_center p p p p = p /\
  hand_radius p p p p = 0%Z /\
  (forall contour, limit_points 0 contour = false) /\
  exists h', count_fingers thresholded [p] h = (Ret 0%Z, h').
Proof.
  intros HT HP. split; [apply hand_center_point|].
  split; [apply hand_radius_point|].
  split; [apply limit_points_zero|].
  destruct (count_fingers_run h thresholded T [p] HT) as (h' & _ & R).
  { rewrite HP. discriminate. }
  exists h'. rewrite R. rewrite HP.
  change (hull_point argmin snd [p]) with p.
  change (hull_point argmax snd [p]) with p.
  change (hull_point argmin fst [p]) with p.
  change (hull_point argmax fst [p]) with p.
  rewrite hand_radius_point. now rewrite count_loop_zero.
Qed.

(** C4 as the code has it.  [count_fingers] does not look for
    degenerate contours.  A contour without a hull point, as a contour
    of zero points is, makes the call raise; a contour with a hull, of
    zero area or not, goes through the ordinary pipeline: the call
    returns the number of ring contours that pass the two tests. *)
Theorem count_fingers_no_skip (h : heap) (thresholded : ref) (T : grid Z)
    (hand_segment : Contour) :
  h !! thresholded = Some (U8 T) ->
  let hull := convexHull hand_segment in
  let top := hull_point argmin snd hull in
  let bottom := hull_point argmax snd hull in
  let left := hull_point argmin fst hull in
  let right := hull_point argmax fst hull in
  let cY := (hand_center top bottom left right).2 in
  let radius := hand_radius top bottom left right in
  let contours :=
    findContours CHAIN_APPROX_NONE
      (ring_mask T (hand_center top bottom left right) radius) in
  (hull = [] ->
   count_fingers thresholded hand_segment h = (Raise ValueError, h)) /\
  (hull <> [] ->
   exists h',
     count_fingers thresholded hand_segment h
     = (Ret (Z.of_nat (length (filter (is_finger cY radius) contours))),
        h')).
Proof.
  intros HT hull top bottom left right cY radius contours. split.
  - intros E. unfold count_fingers. fold hull. rewrite E.
    apply bind_Raise. now apply extreme_empty.
  - intros N.
    destruct (count_fingers_run h thresholded T hand_segment HT N)
      as (h' & _ & R).
    exists h'. rewrite R. now rewrite count_loop_filter.
Qed.

(** ** The radius of the sampling ring *)









(** ** Which objects a call writes *)

Lemma safe_ret {A} n (a : A) : safe n (ret a).
Proof. intros h L. cbn. auto. Qed.

Lemma safe_raise {A} n e : safe n (raise (A := A) e).
Proof. intros h L. cbn. auto. Qed.

Lemma safe_load n r : safe n (load r).
Proof. intros h L. unfold load. destruct (h !! r); cbn; auto. Qed.

Lemma safe_alloc n o : safe n (alloc o).
Proof.
  intros h L. unfold alloc. cbn. split.
  - intros r x _ Hr. now apply lookup_app_l_Some.
  - rewrite length_app. lia.
Qed.

Lemma safe_store n r o : n <= r -> safe n (store r o).
Proof.
  intros Hr h L. unfold store. cbn. split.
  - intros q x Hq Hx. rewrite list_lookup_insert_ne; [exact Hx|lia].
  - now rewrite length_insert.
Qed.

Lemma safe_bind_post {A B} n (m : M A) (f : A -> M B) (P : A -> Prop) :
  safe n m ->
  (forall h a h', n <= length h -> m h = (Ret a, h') -> P a) ->
  (forall a, P a -> safe n (f a)) ->
  safe n (bind m f).
Proof.
  intros Hm HP Hf h L. unfold bind.
  destruct (Hm h L) as [K1 L1].
  destruct (m h) as [[a | e] h1] eqn:E; cbn in K1, L1.
  - destruct (Hf a (HP h a h1 L E) h1 L1) as [K2 L2]. split; [|exact L2].
    intros r o Hr Ho. apply K2; [exact Hr|]. now apply K1.
  - cbn. auto.
Qed.

Lemma safe_bind {A B} n (m : M A) (f : A -> M B) :
  safe n m -> (forall a, safe n (f a)) -> safe n (bind m f).
Proof.
  intros Hm Hf. apply (safe_bind_post n m f (fun _ => True)); auto.
Qed.

Lemma safe_preserved {A} (m : M A) (h : heap) :
  safe (length h) m -> preserved h (m h).2.
Proof.
  intros S r o Ho. destruct (S h (le_n _)) as [K _].
  apply K; [|exact Ho]. now apply lookup_lt_Some in Ho.
Qed.

Ltac safe_step :=
  first
    [ apply safe_ret | apply safe_raise | apply safe_load | apply safe_alloc
    | apply safe_bind; [|intros ?]
    | match goal with
      | |- safe _ (match ?x with _ => _ end) => destruct x
      end ].

Ltac safe_auto := repeat safe_step.

Lemma safe_np_float32 n a : safe n (np_float32 a).
Proof. unfold np_float32. safe_auto. Qed.

Lemma safe_astype_uint8 n a : safe n (astype_uint8 a).
Proof. unfold astype_uint8. safe_auto. Qed.

Lemma safe_ndarray_copy n a : safe n (ndarray_copy a).
Proof. unfold ndarray_copy. safe_auto. Qed.

Lemma safe_cv2_absdiff n a b : safe n (cv2_absdiff a b).
Proof. unfold cv2_absdiff. safe_auto. Qed.

Lemma safe_cv2_threshold n a t v : safe n (cv2_threshold a t v).
Proof. unfold cv2_threshold. safe_auto. Qed.

Lemma safe_cv2_findContours n a method : safe n (cv2_findContours a method).
Proof. unfold cv2_findContours. safe_auto. Qed.

Lemma safe_np_zeros_like n a : safe n (np_zeros_like a).
Proof. unfold np_zeros_like. safe_auto. Qed.

Lemma safe_cv2_bitwise_and n a b m : safe n (cv2_bitwise_and a b m).
Proof. unfold cv2_bitwise_and. safe_auto. Qed.

Lemma safe_extreme n sel coord hull : safe n (extreme sel coord hull).
Proof. unfold extreme. safe_auto. Qed.

(** [cv2.circle] writes into its image: safe when that image is new. *)
Lemma safe_cv2_circle n img center radius color thickness :
  n <= img -> safe n (cv2_circle img center radius color thickness).
Proof.
  intros L. unfold cv2_circle. safe_auto. now apply safe_store.
Qed.

Lemma np_zeros_like_new h a r h' :
  np_zeros_like a h = (Ret r, h') -> r = length h.
Proof.
  unfold np_zeros_like, bind, load, alloc.
  destruct (h !! a) as [[px | px]|]; intros E; now inversion E.
Qed.

Lemma safe_segment n frame bg thr : safe n (segment frame bg thr).
Proof.
  unfold segment.
  apply safe_bind; [apply safe_astype_uint8|intros ?].
  apply safe_bind; [apply safe_cv2_absdiff|intros ?].
  apply safe_bind; [apply safe_cv2_threshold|intros ?].
  apply safe_bind; [apply safe_ndarray_copy|intros ?].
  apply safe_bind; [apply safe_cv2_findContours|intros contours].
  destruct contours; safe_auto.
Qed.

Lemma safe_count_fingers n thresholded hand_segment :
  safe n (count_fingers thresholded hand_segment).
Proof.
  unfold count_fingers.
  do 4 (apply safe_bind; [apply safe_extreme|intros ?]).
  destruct (hand_center _ _ _ _) as [cX cY].
  apply (safe_bind_post n _ _ (fun r => n <= r)).
  - apply safe_np_zeros_like.
  - intros h r h' L E. apply np_zeros_like_new in E. lia.
  - intros roi Hroi.
    apply safe_bind; [now apply safe_cv2_circle|intros ?].
    apply safe_bind; [apply safe_cv2_bitwise_and|intros ?].
    apply safe_bind; [apply safe_ndarray_copy|intros ?].
    apply safe_bind; [apply safe_cv2_findContours|intros ?].
    apply safe_ret.
Qed.

(** After the warm-up a tick keeps the background variable. *)
Lemma tick_steady_background gray s h s' h' :
  (60 <= num_frames s)%Z ->
  tick gray s h = (Ret s', h') ->
  (60 <= num_frames s')%Z /\ background s' = background s.
Proof.
  intros L. unfold tick.
  destruct (Z.ltb_spec (num_frames s) 60) as [|_]; [lia|].
  destruct (background s) as [bg|]; [|discriminate].
  unfold bind.
  destruct (segment gray bg 25 h) as [[[[thr seg]|]|e] h1];
    [|intros E; inversion E; subst; cbn; split; [lia|reflexivity]
     |discriminate].
  destruct (count_fingers thr seg h1) as [[k|e] h2]; [|discriminate].
  intros E; inversion E; subst; cbn. split; [lia|reflexivity].
Qed.

Lemma safe_tick_steady n gray s :
  (60 <= num_frames s)%Z -> safe n (tick gray s).
Proof.
  intros L. unfold tick.
  destruct (Z.ltb_spec (num_frames s) 60) as [|_]; [lia|].
  destruct (background s) as [bg|]; [|apply safe_raise].
  apply safe_bind; [apply safe_segment|intros [[thr seg]|]].
  - apply safe_bind; [apply safe_count_fingers|intros ?]. apply safe_ret.
  - apply safe_ret.
Qed.

Lemma safe_run_steady n frames :
  forall s, (60 <= num_frames s)%Z -> safe n (run frames s).
Proof.
  induction frames as [|F frames IH]; intros s L; cbn [run].
  - apply safe_ret.
  - apply safe_bind; [apply safe_alloc|intros gray].
    apply (safe_bind_post n _ _ (fun s' => (60 <= num_frames s')%Z)).
    + now apply safe_tick_steady.
    + intros h s' h' _ E. now apply (tick_steady_background _ _ _ _ _ L E).
    + intros s' L'. now apply IH.
Qed.

Lemma run_steady_background frames :
  forall s h s' h',
    (60 <= num_frames s)%Z ->
    run frames s h = (Ret s', h') ->
    background s' = background s.
Proof.
  induction frames as [|F frames IH]; intros s h s' h' L; cbn [run].
  - intros E. now inversion E.
  - unfold bind at 1, alloc at 1. unfold bind at 1.
    destruct (tick (length h) s (h ++ [U8 F])) as [[s1|e] h1] eqn:T;
      [|discriminate].
    destruct (tick_steady_background _ _ _ _ _ L T) as [L1 B1].
    intros E. rewrite <- B1. exact (IH _ _ _ _ L1 E).
Qed.

(** C9.  [segment] writes into no array that exists when it is called,
    so its background argument is unchanged, whatever the call returns
    or raises.  Once the warm-up is over ([num_frames >= 60]) the capture
    loop, however long it runs, changes no existing array either, and
    its background variable keeps naming the same array. *)
Theorem segment_keeps_background (h : heap) (frame bg : ref) (thr : Z) :
  (forall B, h !! bg = Some B ->
             (segment frame bg thr h).2 !! bg = Some B) /\
  preserved h (segment frame bg thr h).2 /\
  forall (frames : list (grid Z)) (s : session),
    (60 <= num_frames s)%Z ->
    preserved h (run frames s h).2 /\
    forall s' h', run frames s h = (Ret s', h') ->
                  background s' = background s.
Proof.
  assert (P : preserved h (segment frame bg thr h).2)
    by apply safe_preserved, safe_segment.
  split; [intros B HB; now apply P|]. split; [exact P|].
  intros frames s L. split.
  - now apply safe_preserved, safe_run_steady.
  - intros s' h'. now apply run_steady_background.
Qed.

(** * Further properties of the pipeline *)

(** ** Background model: what an update writes *)

(** X1.  An update writes into the background array and into nothing else:
    every other array that exists before the call, the frame included,
    is unchanged afterwards, whether the call returns or raises. *)
Theorem calc_accum_avg_writes_background_only (h : heap) (frame : ref)
    (w : Q) (bg : option ref) (r : ref) (o : ndarray) :
  h !! r = Some o -> bg <> Some r ->
  (calc_accum_avg frame w bg h).2 !! r = Some o.
Proof.
  intros Hr Hne. destruct bg as [b|].
  - assert (Hb : b <> r) by congruence.
    unfold calc_accum_avg, np_float32, accumulateWeighted, bind, load,
      alloc, store, raise, ret.
    destruct (h !! frame) as [f|]; cbn; [|exact Hr].
    rewrite lookup_new.
    destruct ((h ++ [F32 (to_float f)]) !! b) as [[px|px]|]; cbn;
      try (now apply lookup_old).
    destruct (same_shape _ px); cbn.
    + rewrite list_lookup_insert_ne by exact Hb. now apply lookup_old.
    + now apply lookup_old.
  - apply (safe_preserved (calc_accum_avg frame w None) h); [|exact Hr].
    unfold calc_accum_avg. apply safe_np_float32.
Qed.

(** X2.  An update with a frame of another shape than the background raises
    [cv2.error] and leaves the background as it was. *)
Theorem calc_accum_avg_mismatch (h : heap) (frame bg : ref) (F : grid Z)
    (B : grid Q) (w : Q) :
  h !! frame = Some (U8 F) -> h !! bg = Some (F32 B) ->
  shape F <> shape B ->
  (calc_accum_avg frame w (Some bg) h).1 = Raise cv_error /\
  (calc_accum_avg frame w (Some bg) h).2 !! bg = Some (F32 B).
Proof.
  intros HF HB E.
  split; [now apply (calc_accum_avg_next_mismatch h frame bg F B w)|].
  unfold calc_accum_avg.
  rewrite (bind_Ret _ _ _ _ _ (np_float32_run _ _ _ HF)).
  unfold bind at 1, accumulateWeighted.
  rewrite (bind_Ret _ _ _ _ _ (load_run _ _ _ (lookup_new h _))).
  rewrite (bind_Ret _ _ _ _ _ (load_run _ _ _ (lookup_old h _ _ _ HB))).
  unfold same_shape. rewrite bool_decide_eq_false_2.
  - cbn. now apply lookup_old.
  - cbn [to_float]. now rewrite shape_map_grid.
Qed.

(** ** Background model: the rate of convergence *)





(** ** Segmenter: a still scene, and calling twice *)

Lemma within_threshold_shape (thr : Z) (B : grid Q) (F : grid Z) :
  within_threshold thr B F -> shape F = shape B.
Proof.
  unfold within_threshold, shape.
  induction 1 as [|rb rf B F Hr _ IH]; cbn; [reflexivity|].
  f_equal; [|exact IH]. symmetry. now apply Forall2_length in Hr.
Qed.

Lemma within_threshold_mask (thr : Z) (B : grid Q) (F : grid Z) :
  within_threshold thr B F ->
  difference_mask F B thr = map_grid (fun _ => 0%Z) F.
Proof.
  unfold within_threshold, difference_mask, map_grid, zip_grid.
  induction 1 as [|rb rf B F Hr _ IH]; cbn; [reflexivity|].
  f_equal; [|exact IH]. clear IH.
  induction Hr as [|b f rb rf Hbf _ IHr]; cbn; [reflexivity|].
  f_equal; [|exact IHr].
  destruct (Z.ltb_spec thr (Z.abs (to_uint8 b - f))); [lia|reflexivity].
Qed.

(** X4.  When no pixel of the frame differs from the background by more than
    the threshold the mask is all zero, and [segment] returns [None] as
    soon as contour extraction finds nothing in an all-zero image. *)
Theorem segment_still (h : heap) (frame bg : ref) (F : grid Z)
    (B : grid Q) (thr : Z) :
  h !! frame = Some (U8 F) -> h !! bg = Some (F32 B) ->
  within_threshold thr B F ->
  findContours CHAIN_APPROX_SIMPLE (map_grid (fun _ => 0%Z) F) = [] ->
  difference_mask F B thr = map_grid (fun _ => 0%Z) F /\
  exists h', segment frame bg thr h = (Ret None, h').
Proof.
  intros HF HB W C.
  pose proof (within_threshold_mask thr B F W) as Mk.
  split; [exact Mk|].
  destruct (segment_run h frame bg F B thr HF HB
              (within_threshold_shape _ _ _ W)) as (m & h' & _ & _ & R).
  exists h'. rewrite R, Mk, C. reflexivity.
Qed.


(** ** Finger counter: the mask, the ring and the count *)

(** X6.  [count_fingers] changes no array that exists when it is called: the
    mask it is given can be displayed afterwards.  Its one in-place
    write, the circle, goes into the array it has just made. *)
Theorem count_fingers_keeps_arrays (h : heap) (thresholded : ref)
    (hand_segment : Contour) (r : ref) (o : ndarray) :
  h !! r = Some o ->
  (count_fingers thresholded hand_segment h).2 !! r = Some o.
Proof.
  intros Hr.
  apply (safe_preserved (count_fingers thresholded hand_segment) h);
    [apply safe_count_fingers|exact Hr].
Qed.



(** X8.  The count is never negative and never more than the number of
    contours found in the ring-intersected mask. *)
Theorem count_fingers_bounds (h : heap) (thresholded : ref) (T : grid Z)
    (hand_segment : Contour) :
  h !! thresholded = Some (U8 T) ->
  convexHull hand_segment <> [] ->
  let hull := convexHull hand_segment in
  let top := hull_point argmin snd hull in
  let bottom := hull_point argmax snd hull in
  let left := hull_point argmin fst hull in
  let right := hull_point argmax fst hull in
  let contours :=
    findContours CHAIN_APPROX_NONE
      (ring_mask T (hand_center top bottom left right)
         (hand_radius top bottom left right)) in
  exists n h',
    count_fingers thresholded hand_segment h = (Ret n, h') /\
    (0 <= n <= Z.of_nat (length contours))%Z.
Proof.
  intros HT N hull top bottom left right contours.
  destruct (count_fingers_run h thresholded T hand_segment HT N)
    as (h' & _ & R).
  eexists _, h'. split; [exact R|].
  rewrite count_loop_filter. fold hull top bottom left right contours.
  pose proof (length_filter
                (is_finger (hand_center top bottom left right).2
                   (hand_radius top bottom left right)) contours).
  lia.
Qed.

(** ** Finger counter: the extreme points, the centre and the radius *)

Lemma map_lookup {A B} (f : A -> B) (l : list A) (k : nat) :
  map f l !! k = f <$> l !! k.
Proof.
  revert k. induction l as [|a l IH]; intros [|k]; cbn; auto.
Qed.

(** [arg_best] with [<]: the index of a smallest element. *)
Lemma arg_best_min (l : list Z) :
  forall (pre : list Z) (best_i : nat) (best : Z) (i : nat),
    i = length pre ->
    pre !! best_i = Some best ->
    (forall x, x ∈ pre -> (best <= x)%Z) ->
    exists v,
      (pre ++ l) !! arg_best Z.ltb best_i best i l = Some v /\
      forall x, x ∈ pre ++ l -> (v <= x)%Z.
Proof.
  induction l as [|v l IH]; intros pre best_i best i Hi Hb Hmin.
  - cbn [arg_best]. rewrite app_nil_r. eauto.
  - cbn [arg_best].
    replace (pre ++ v :: l) with ((pre ++ [v]) ++ l)
      by (now rewrite <- app_assoc).
    assert (Hi' : S i = length (pre ++ [v]))
      by (rewrite length_app; cbn; lia).
    destruct (Z.ltb_spec v best) as [Lt | Ge].
    + apply IH; [exact Hi'| |].
      * subst i. now apply list_lookup_middle.
      * intros x Hx. apply elem_of_app in Hx. destruct Hx as [Hx | Hx].
        -- apply Hmin in Hx. lia.
        -- apply list_elem_of_singleton in Hx. lia.
    + apply IH; [exact Hi'| |].
      * now apply lookup_app_l_Some.
      * intros x Hx. apply elem_of_app in Hx. destruct Hx as [Hx | Hx].
        -- now apply Hmin.
        -- apply list_elem_of_singleton in Hx. lia.
Qed.

Lemma arg_best_opp (l : list Z) :
  forall best_i best i,
    arg_best (fun v best => Z.ltb best v) best_i best i l
    = arg_best Z.ltb best_i (- best) i (map Z.opp l).
Proof.
  induction l as [|v l IH]; intros best_i best i; cbn [arg_best map].
  - reflexivity.
  - replace (- v <? - best)%Z with (best <? v)%Z
      by (destruct (Z.ltb_spec best v), (Z.ltb_spec (- v) (- best)); lia).
    destruct (best <? v)%Z; apply IH.
Qed.

Lemma argmin_least (l : list Z) :
  l <> [] ->
  exists k v, argmin l = Some k /\ l !! k = Some v /\
              forall x, x ∈ l -> (v <= x)%Z.
Proof.
  destruct l as [|a l]; [congruence|]. intros _.
  destruct (arg_best_min l [a] 0 a 1 eq_refl eq_refl) as (v & Hv & Hmin).
  - intros x Hx. apply list_elem_of_singleton in Hx. lia.
  - exists (arg_best Z.ltb 0 a 1 l), v. auto.
Qed.

Lemma argmax_greatest (l : list Z) :
  l <> [] ->
  exists k v, argmax l = Some k /\ l !! k = Some v /\
              forall x, x ∈ l -> (x <= v)%Z.
Proof.
  destruct l as [|a l]; [congruence|]. intros _.
  destruct (arg_best_min (map Z.opp l) [(- a)%Z] 0 (- a)%Z 1
              eq_refl eq_refl) as (v & Hv & Hmin).
  - intros x Hx. apply list_elem_of_singleton in Hx. lia.
  - exists (arg_best Z.ltb 0 (- a) 1 (map Z.opp l)), (- v)%Z.
    split; [|split].
    + cbn [argmax]. now rewrite arg_best_opp.
    + change ([(- a)%Z] ++ map Z.opp l) with (map Z.opp (a :: l)) in Hv.
      rewrite map_lookup in Hv.
      apply fmap_Some in Hv. destruct Hv as (y & Hy & ->).
      rewrite Hy. f_equal. lia.
    + intros x Hx.
      assert (Hx' : (- x)%Z ∈ [(- a)%Z] ++ map Z.opp l).
      { change ([(- a)%Z] ++ map Z.opp l) with (map Z.opp (a :: l)).
        apply list_elem_of_In, in_map, list_elem_of_In, Hx. }
      apply Hmin in Hx'. lia.
Qed.

Lemma hull_point_argmin (coord : point -> Z) (hull : Contour) :
  hull <> [] ->
  hull_point argmin coord hull ∈ hull /\
  forall q, q ∈ hull ->
            (coord (hull_point argmin coord hull) <= coord q)%Z.
Proof.
  intros N.
  destruct (argmin_least (map coord hull)) as (k & v & Ek & Hk & Hmin).
  { destruct hull; [congruence|discriminate]. }
  unfold hull_point. rewrite Ek. rewrite map_lookup in Hk.
  apply fmap_Some in Hk. destruct Hk as (p & Hp & ->).
  rewrite (nth_lookup_Some _ _ _ _ Hp). split.
  - eapply list_elem_of_lookup_2, Hp.
  - intros q Hq. apply Hmin.
    apply list_elem_of_In, in_map, list_elem_of_In, Hq.
Qed.

Lemma hull_point_argmax (coord : point -> Z) (hull : Contour) :
  hull <> [] ->
  hull_point argmax coord hull ∈ hull /\
  forall q, q ∈ hull ->
            (coord q <= coord (hull_point argmax coord hull))%Z.
Proof.
  intros N.
  destruct (argmax_greatest (map coord hull)) as (k & v & Ek & Hk & Hmax).
  { destruct hull; [congruence|discriminate]. }
  unfold hull_point. rewrite Ek. rewrite map_lookup in Hk.
  apply fmap_Some in Hk. destruct Hk as (p & Hp & ->).
  rewrite (nth_lookup_Some _ _ _ _ Hp). split.
  - eapply list_elem_of_lookup_2, Hp.
  - intros q Hq. apply Hmax.
    apply list_elem_of_In, in_map, list_elem_of_In, Hq.
Qed.

(** X9.  On a hull with a point, the four extreme points the code picks are
    points of the hull, and no hull point lies above the top one, below
    the bottom one, left of the left one or right of the right one. *)
Theorem extreme_points_spec (hull : Contour) (h : heap) :
  hull <> [] ->
  exists top bottom left right,
    extreme argmin snd hull h = (Ret top, h) /\
    extreme argmax snd hull h = (Ret bottom, h) /\
    extreme argmin fst hull h = (Ret left, h) /\
    extreme argmax fst hull h = (Ret right, h) /\
    top ∈ hull /\ bottom ∈ hull /\ left ∈ hull /\ right ∈ hull /\
    forall q, q ∈ hull ->
      (top.2 <= q.2 <= bottom.2)%Z /\ (left.1 <= q.1 <= right.1)%Z.
Proof.
  intros N.
  destruct (hull_point_argmin snd hull N) as [T1 T2].
  destruct (hull_point_argmax snd hull N) as [B1 B2].
  destruct (hull_point_argmin fst hull N) as [L1 L2].
  destruct (hull_point_argmax fst hull N) as [R1 R2].
  exists (hull_point argmin snd hull), (hull_point argmax snd hull),
    (hull_point argmin fst hull), (hull_point argmax fst hull).
  split; [now apply extreme_argmin_run|].
  split; [now apply extreme_argmax_run|].
  split; [now apply extreme_argmin_run|].
  split; [now apply extreme_argmax_run|].
  repeat (split; [assumption|]).
  intros q Hq. specialize (T2 q Hq). specialize (B2 q Hq).
  specialize (L2 q Hq). specialize (R2 q Hq). lia.
Qed.


Lemma int_09_sqrt_facts (m : Z) :
  (0 <= m)%Z ->
  (0 <= int_09_sqrt m)%Z /\
  (int_09_sqrt m * int_09_sqrt m <= m)%Z /\
  (int_09_sqrt m = 0 <-> m <= 1)%Z.
Proof.
  intros Hm. unfold int_09_sqrt.
  set (s := Z.sqrt (81 * m)).
  assert (Hs : (s * s <= 81 * m < (s + 1) * (s + 1))%Z).
  { subst s. pose proof (Z.sqrt_spec (81 * m)) as S.
    unfold Z.succ in S. apply S. lia. }
  assert (Hs0 : (0 <= s)%Z) by (subst s; apply Z.sqrt_nonneg).
  pose proof (Z.div_mod s 10 ltac:(lia)) as D.
  pose proof (Z.mod_pos_bound s 10 ltac:(lia)) as Md.
  set (r := (s / 10)%Z) in *.
  assert (Hr0 : (0 <= r)%Z) by lia.
  split; [exact Hr0|]. split; [nia|]. split.
  - intros E. rewrite E in D. nia.
  - intros L. nia.
Qed.


(** X12.  A hull whose extreme points are all within one pixel of the centre
    gives no finger, whatever the mask. *)
Theorem count_fingers_tiny_hull (h : heap) (thresholded : ref)
    (T : grid Z) (hand_segment : Contour) :
  h !! thresholded = Some (U8 T) ->
  convexHull hand_segment <> [] ->
  let hull := convexHull hand_segment in
  let top := hull_point argmin snd hull in
  let bottom := hull_point argmax snd hull in
  let left := hull_point argmin fst hull in
  let right := hull_point argmax fst hull in
  (max_sq_distance (hand_center top bottom left right)
     [left; right; top; bottom] <= 1)%Z ->
  exists h', count_fingers thresholded hand_segment h = (Ret 0%Z, h').
Proof.
  intros HT N hull top bottom left right Hm.
  destruct (count_fingers_run h thresholded T hand_segment HT N)
    as (h' & _ & R).
  exists h'. rewrite R. fold hull top bottom left right.
  assert (E : hand_radius top bottom left right = 0%Z).
  { unfold hand_radius. apply int_09_sqrt_facts; [|exact Hm].
    unfold max_sq_distance. cbn [map foldr]. lia. }
  rewrite E. now rewrite count_loop_zero.
Qed.

(** ** The capture loop *)

Lemma tick_Ret (gray : ref) (s s' : session) (h h' : heap) :
  tick gray s h = (Ret s', h') ->
  num_frames s' = (num_frames s + 1)%Z /\ is_Some (background s').
Proof.
  unfold tick, bind.
  destruct (num_frames s <? 60)%Z.
  - destruct (calc_accum_avg gray accumulated_weight (background s) h)
      as [[b|e] h1]; [|discriminate].
    intros E. inversion E; subst; cbn. eauto.
  - destruct (background s) as [bg|]; [|discriminate].
    destruct (segment gray bg 25 h) as [[[[thr seg]|]|e] h1];
      [| |discriminate].
    + destruct (count_fingers thr seg h1) as [[k|e] h2]; [|discriminate].
      intros E. inversion E; subst; cbn. eauto.
    + intros E. inversion E; subst; cbn. eauto.
Qed.

(** X13.  A loop that gets through its frames has counted every one of them,
    and from the first frame on its background is set. *)
Theorem run_counts_frames (frames : list (grid Z)) :
  forall (s s' : session) (h h' : heap),
    run frames s h = (Ret s', h') ->
    num_frames s' = (num_frames s + Z.of_nat (length frames))%Z /\
    (frames <> [] -> is_Some (background s')).
Proof.
  induction frames as [|F frames IH]; intros s s' h h'; cbn [run].
  - intros E. inversion E; subst. cbn. split; [lia|congruence].
  - unfold bind at 1, alloc at 1. unfold bind at 1.
    destruct (tick (length h) s (h ++ [U8 F])) as [[s1|e] h1] eqn:T;
      [|discriminate].
    destruct (tick_Ret _ _ _ _ _ T) as [N1 B1].
    intros E. destruct (IH _ _ _ _ E) as [N2 B2].
    split; [cbn [length]; lia|]. intros _.
    destruct frames as [|F' frames'].
    + cbn [run] in E. inversion E; subst. exact B1.
    + apply B2. discriminate.
Qed.

Lemma never_ret {A} e (a : A) : never e (ret a).
Proof. intros h. discriminate. Qed.

Lemma never_raise {A} e e' : e' <> e -> never e (raise (A := A) e').
Proof. intros N h. cbn. congruence. Qed.

Lemma never_load e r : e <> invalid_ref -> never e (load r).
Proof. intros N h. unfold load. destruct (h !! r); cbn; congruence. Qed.

Lemma never_alloc e o : never e (alloc o).
Proof. intros h. discriminate. Qed.

Lemma never_store e r o : never e (store r o).
Proof. intros h. discriminate. Qed.

Lemma never_bind {A B} e (m : M A) (f : A -> M B) :
  never e m -> (forall a, never e (f a)) -> never e (bind m f).
Proof.
  intros Hm Hf h. unfold bind. specialize (Hm h).
  destruct (m h) as [[a|e'] h1]; cbn in *; [apply Hf|congruence].
Qed.

Ltac never_step :=
  first
    [ apply never_ret | apply never_alloc | apply never_store
    | apply never_raise; discriminate
    | apply never_load; discriminate
    | apply never_bind; [|intros ?]
    | match goal with
      | |- never _ (match ?x with _ => _ end) => destruct x
      end ].

Lemma never_attr_calc_accum_avg frame w bg :
  never AttributeError (calc_accum_avg frame w bg).
Proof.
  unfold calc_accum_avg, np_float32, accumulateWeighted.
  repeat never_step.
Qed.

Lemma never_attr_segment frame bg thr :
  never AttributeError (segment frame bg thr).
Proof.
  unfold segment, astype_uint8, cv2_absdiff, cv2_threshold, ndarray_copy,
    cv2_findContours.
  repeat never_step.
Qed.

Lemma never_attr_count_fingers thresholded hand_segment :
  never AttributeError (count_fingers thresholded hand_segment).
Proof.
  unfold count_fingers, extreme, np_zeros_like, cv2_circle,
    cv2_bitwise_and, ndarray_copy, cv2_findContours.
  repeat never_step.
Qed.

Lemma never_attr_tick gray s :
  ((num_frames s < 60)%Z \/ is_Some (background s)) ->
  never AttributeError (tick gray s).
Proof.
  intros I. unfold tick.
  destruct (Z.ltb_spec (num_frames s) 60) as [L | G].
  - apply never_bind; [apply never_attr_calc_accum_avg|intros ?].
    apply never_ret.
  - destruct I as [I | [b I]]; [lia|]. rewrite I.
    apply never_bind; [apply never_attr_segment|intros [[thr seg]|]].
    + apply never_bind; [apply never_attr_count_fingers|intros ?].
      apply never_ret.
    + apply never_ret.
Qed.

Lemma never_attr_run frames :
  forall s, ((num_frames s < 60)%Z \/ is_Some (background s)) ->
            never AttributeError (run frames s).
Proof.
  induction frames as [|F frames IH]; intros s I; cbn [run].
  - apply never_ret.
  - intros h. unfold bind at 1, alloc at 1. unfold bind at 1.
    pose proof (never_attr_tick (length h) s I (h ++ [U8 F])) as T.
    destruct (tick (length h) s (h ++ [U8 F])) as [[s1|e] h1] eqn:E.
    + apply IH. right. now destruct (tick_Ret _ _ _ _ _ E).
    + exact T.
Qed.

(** X14.  Started with no background and no frame counted, the loop never
    reaches the segmenter with the background still unset: whatever the
    frames are, it does not fail with an attribute error on [None]. *)
Theorem run_never_unset (frames : list (grid Z)) (h : heap) :
  (run frames session0 h).1 <> Raise AttributeError.
Proof.
  apply never_attr_run. left. cbn. lia.
Qed.

(** ** A still scene from the first frame on *)

Lemma to_uint8_of_pixel (b : Q) (f : Z) :
  (b == inject_Z f)%Q -> (0 <= f < 256)%Z -> to_uint8 b = f.
Proof.
  intros E R. unfold to_uint8, Qtrunc.
  unfold Qeq in E. cbn in E. rewrite Z.mul_1_r in E. rewrite E.
  rewrite Z.quot_mul by discriminate. now apply Z.mod_small.
Qed.

Lemma grid_eq_within_threshold (thr : Z) (B : grid Q) (F : grid Z) :
  (0 <= thr)%Z -> uint8_grid F ->
  grid_eq B (map_grid inject_Z F) -> within_threshold thr B F.
Proof.
  intros Ht. unfold uint8_grid, grid_eq, within_threshold, map_grid.
  revert B. induction F as [|rf F IH]; intros [|rb B] U G;
    inversion G; subst; constructor.
  - inversion U as [|? ? Ur _]; subst. clear IH U G.
    match goal with H : Forall2 Qeq rb _ |- _ => rename H into Gr end.
    revert rb Gr. induction rf as [|f rf IHr]; intros [|b rb] Gr;
      inversion Gr; subst; constructor.
    + inversion Ur; subst.
      rewrite (to_uint8_of_pixel b f) by assumption.
      rewrite Z.sub_diag. cbn. exact Ht.
    + inversion Ur; subst. now apply IHr.
  - inversion U; subst. now apply IH.
Qed.

Lemma tick_watching (F : grid Z) (s : session) (h : heap) :
  uint8_grid F ->
  findContours CHAIN_APPROX_SIMPLE (map_grid (fun _ => 0%Z) F) = [] ->
  watching F (num_frames s) (background s) (fingers s) h ->
  exists s' h',
    tick (length h) s (h ++ [U8 F]) = (Ret s', h') /\
    num_frames s' = (num_frames s + 1)%Z /\
    watching F (num_frames s') (background s') (fingers s') h'.
Proof.
  intros U C (Hf & Hn & Hb).
  assert (HF : (h ++ [U8 F]) !! length h = Some (U8 F)) by auto with store.
  unfold tick. destruct (Z.ltb_spec (num_frames s) 60) as [L | G].
  - destruct (background s) as [b|].
    + destruct Hb as (B & Lb & GB).
      assert (E : shape F = shape B).
      { rewrite (grid_eq_shape _ _ GB). now rewrite shape_map_grid. }
      pose proof (calc_accum_avg_next_run _ _ _ _ _ accumulated_weight
                    HF (lookup_old h _ _ _ Lb) E) as Run.
      rewrite (bind_Ret _ _ _ _ _ Run). eexists _, _.
      split; [reflexivity|]. cbn. split; [reflexivity|].
      split; [reflexivity|]. split; [lia|].
      eexists. split.
      * apply list_lookup_insert_eq. rewrite !length_app.
        apply lookup_lt_Some in Lb. lia.
      * now apply grid_eq_accumulate.
    + pose proof (calc_accum_avg_first_run _ _ _ accumulated_weight HF)
        as Run.
      rewrite (bind_Ret _ _ _ _ _ Run). eexists _, _.
      split; [reflexivity|]. cbn. split; [reflexivity|].
      split; [reflexivity|]. split; [lia|].
      eexists. split; [apply lookup_new|apply grid_eq_refl].
  - destruct (background s) as [b|]; [|lia].
    destruct Hb as (B & Lb & GB).
    pose proof (grid_eq_within_threshold 25 B F ltac:(lia) U GB) as W.
    destruct (segment_run (h ++ [U8 F]) (length h) b F B 25 HF
                (lookup_old h _ _ _ Lb) (within_threshold_shape _ _ _ W))
      as (m & h' & P & _ & R).
    rewrite (within_threshold_mask _ _ _ W), C in R.
    rewrite (bind_Ret _ _ _ _ _ R). eexists _, h'.
    split; [reflexivity|]. cbn. split; [reflexivity|].
    split; [exact Hf|]. split; [lia|].
    exists B. split; [|exact GB]. apply P. now apply lookup_old.
Qed.

Lemma run_watching (F : grid Z) (n : nat) :
  uint8_grid F ->
  findContours CHAIN_APPROX_SIMPLE (map_grid (fun _ => 0%Z) F) = [] ->
  forall (s : session) (h : heap),
    watching F (num_frames s) (background s) (fingers s) h ->
    exists s' h',
      run (replicate n F) s h = (Ret s', h') /\
      num_frames s' = (num_frames s + Z.of_nat n)%Z /\
      fingers s' = None.
Proof.
  intros U C. induction n as [|n IH]; intros s h W.
  - exists s, h. split; [reflexivity|]. split; [lia|]. apply W.
  - destruct (tick_watching F s h U C W) as (s1 & h1 & T & N1 & W1).
    destruct (IH s1 h1 W1) as (s' & h' & R & N & Fg).
    exists s', h'. split; [|split; [lia|exact Fg]].
    cbn [replicate run]. unfold bind at 1, alloc at 1.
    rewrite (bind_Ret _ _ _ _ _ T). exact R.
Qed.

(** X15.  The whole loop on a scene that never changes: with [n] captures of
    one [uint8] image, for any [n] (warm-up and beyond, given that
    contour extraction finds nothing in an all-zero image), every tick
    succeeds, all [n] frames are counted, and no finger count is ever put
    on display. *)
Theorem still_scene_no_fingers (F : grid Z) (n : nat) (h : heap) :
  uint8_grid F ->
  findContours CHAIN_APPROX_SIMPLE (map_grid (fun _ => 0%Z) F) = [] ->
  exists s' h',
    run (replicate n F) session0 h = (Ret s', h') /\
    num_frames s' = Z.of_nat n /\
    fingers s' = None.
Proof.
  intros U C.
  destruct (run_watching F n U C session0 h) as (s' & h' & R & N & Fg).
  - cbn. split; [reflexivity|]. split; [lia|reflexivity].
  - exists s', h'. auto.
Qed.

(** ** The capture loop: warm-up and the background object *)

Lemma calc_accum_avg_same_object frame w b h r h' :
  calc_accum_avg frame w (Some b) h = (Ret r, h') -> r = b.
Proof.
  unfold calc_accum_avg, bind, ret.
  destruct (np_float32 frame h) as [[f|e] h1]; [|discriminate].
  destruct (accumulateWeighted f b w h1) as [[u|e] h2]; [|discriminate].
  intros E. now inversion E.
Qed.

Lemma tick_keeps_object gray s b h s' h' :
  background s = Some b ->
  tick gray s h = (Ret s', h') ->
  background s' = Some b.
Proof.
  intros Hb. unfold tick, bind. rewrite Hb.
  destruct (num_frames s <? 60)%Z.
  - destruct (calc_accum_avg gray accumulated_weight (Some b) h)
      as [[r|e] h1] eqn:C; [|discriminate].
    apply calc_accum_avg_same_object in C. subst r.
    intros E. now inversion E.
  - destruct (segment gray b 25 h) as [[[[thr seg]|]|e] h1];
      [| |discriminate].
    + destruct (count_fingers thr seg h1) as [[k|e] h2]; [|discriminate].
      intros E. now inversion E.
    + intros E. now inversion E.
Qed.

(** X16.  Once the background is set the loop keeps that one array object for
    good: warm-up updates it in place and later ticks only read it, so
    the background variable never changes its reference. *)
Theorem run_keeps_background_object (frames : list (grid Z)) :
  forall (s s' : session) (b : ref) (h h' : heap),
    background s = Some b ->
    run frames s h = (Ret s', h') ->
    background s' = Some b.
Proof.
  induction frames as [|F frames IH]; intros s s' b h h' Hb; cbn [run].
  - intros E. now inversion E; subst.
  - unfold bind at 1, alloc at 1. unfold bind at 1.
    destruct (tick (length h) s (h ++ [U8 F])) as [[s1|e] h1] eqn:T;
      [|discriminate].
    intros E. apply (IH _ _ _ _ _ (tick_keeps_object _ _ _ _ _ _ Hb T) E).
Qed.

Lemma tick_warm_up_silent gray s h s' h' :
  (num_frames s < 60)%Z ->
  tick gray s h = (Ret s', h') ->
  fingers s' = None.
Proof.
  intros L. unfold tick, bind.
  destruct (Z.ltb_spec (num_frames s) 60) as [_|G]; [|lia].
  destruct (calc_accum_avg gray accumulated_weight (background s) h)
    as [[r|e] h1]; [|discriminate].
  intros E. now inversion E.
Qed.

(** X17.  During the warm-up nothing is segmented or counted: after at most
    60 frames from the start, whatever they show, no finger count has
    been put on display. *)
Theorem warm_up_is_silent (frames : list (grid Z)) :
  forall (s s' : session) (h h' : heap),
    fingers s = None ->
    (num_frames s + Z.of_nat (length frames) <= 60)%Z ->
    run frames s h = (Ret s', h') ->
    fingers s' = None.
Proof.
  induction frames as [|F frames IH]; intros s s' h h' Hf L; cbn [run].
  - intros E. now inversion E; subst.
  - unfold bind at 1, alloc at 1. unfold bind at 1.
    destruct (tick (length h) s (h ++ [U8 F])) as [[s1|e] h1] eqn:T;
      [|discriminate].
    cbn [length] in L.
    assert (L1 : (num_frames s < 60)%Z) by lia.
    intros E. apply (IH s1 s' h1 h'); [| |exact E].
    + apply (tick_warm_up_silent _ _ _ _ _ L1 T).
    + destruct (tick_Ret _ _ _ _ _ T) as [N _]. lia.
Qed.

End Pipeline.

(** * The pipeline on the sample inputs *)

Lemma simple_circle_shape (img : grid Z) (center : point)
    (radius color thickness : Z) :
  shape (Simple.circle img center radius color thickness) = shape img.
Proof.
  unfold shape, Simple.circle. apply list_eq. intros i.
  rewrite !list_lookup_fmap, list_lookup_imap.
  destruct (img !! i) as [row|]; cbn; [|reflexivity].
  f_equal. apply length_imap.
Qed.

Lemma calc_accum_avg_first_witness :
  Sample.store !! 0 = Some (U8 Sample.frame) /\
  exists h',
    calc_accum_avg 0 accumulated_weight None Sample.store
    = (Ret (length Sample.store), h') /\
    h' !! length Sample.store
    = Some (F32 (map_grid inject_Z Sample.frame)) /\
    h' !! 0 = Some (U8 Sample.frame) /\
    forall i j f, pixel Sample.frame i j = Some f ->
      pixel (map_grid inject_Z Sample.frame) i j = Some (inject_Z f).
Proof.
  split; [reflexivity|].
  apply (calc_accum_avg_first Sample.store 0 Sample.frame
           accumulated_weight).
  reflexivity.
Defined.


Lemma warm_up_converges_witness :
  1 <= 3 /\
  exists b B h',
    warm_up 3 Sample.frame None [] = (Ret (Some b), h') /\
    h' !! b = Some (F32 B) /\
    grid_eq B (map_grid inject_Z Sample.frame) /\
    (distance_to B Sample.frame == 0)%Q.
Proof.
  split; [lia|].
  destruct (warm_up_converges [] Sample.frame 3 ltac:(lia))
    as (b & B & h' & _ & _ & R & L & _ & _ & G & Z0 & _).
  exists b, B, h'. auto.
Defined.

Lemma segment_pair_witness :
  Sample.store !! 0 = Some (U8 Sample.frame) /\
  Sample.store !! 1 = Some (F32 Sample.dark) /\
  shape Sample.frame = shape Sample.dark /\
  (segment Simple.findContours Simple.contourArea 0 1 25 Sample.store).1
  = Ret (Some (4, [(1, 1)%Z])) /\
  exists Mk : grid Z,
    (segment Simple.findContours Simple.contourArea 0 1 25 Sample.store).2
      !! 4 = Some (U8 Mk) /\
    shape Mk = shape Sample.frame /\
    (forall i j b f,
       pixel Sample.dark i j = Some b -> pixel Sample.frame i j = Some f ->
       pixel Mk i j
       = Some (if (25 <? Z.abs (to_uint8 b - f))%Z then 255%Z else 0%Z)) /\
    exists pre post,
      Simple.findContours CHAIN_APPROX_SIMPLE Mk
      = pre ++ [(1, 1)%Z] :: post /\
      Forall (fun c => (Simple.contourArea c
                        < Simple.contourArea [(1, 1)%Z])%Q) pre /\
      Forall (fun c => (Simple.contourArea c
                        <= Simple.contourArea [(1, 1)%Z])%Q) post.
Proof.
  split; [reflexivity|]. split; [reflexivity|]. split; [reflexivity|].
  split; [reflexivity|].
  apply (segment_pair Simple.findContours Simple.contourArea
           Sample.store 0 1 Sample.frame Sample.dark 25 4 [(1, 1)%Z]);
    reflexivity.
Defined.



Lemma count_fingers_counts_witness :
  [U8 Sample.mask] !! 0 = Some (U8 Sample.mask) /\
  Simple.convexHull Sample.diamond <> [] /\
  exists h',
    count_fingers Simple.findContours Simple.convexHull Simple.circle
      0 Sample.diamond [U8 Sample.mask]
    = (Ret (Z.of_nat
              (length
                 (filter (is_finger 3 2)
                    (Simple.findContours CHAIN_APPROX_NONE
                       (ring_mask Simple.circle Sample.mask (3, 3)%Z 2))))),
       h').
Proof.
  split; [reflexivity|]. split; [discriminate|].
  apply (count_fingers_counts Simple.findContours Simple.convexHull
           Simple.circle simple_circle_shape [U8 Sample.mask] 0
           Sample.mask Sample.diamond);
    [reflexivity|discriminate].
Defined.

Lemma count_fingers_single_point_witness :
  [U8 Sample.mask] !! 0 = Some (U8 Sample.mask) /\
  Simple.convexHull [(3, 0)%Z] = [(3, 0)%Z] /\
  exists h',
    count_fingers Simple.findContours Simple.convexHull Simple.circle
      0 [(3, 0)%Z] [U8 Sample.mask]
    = (Ret 0%Z, h').
Proof.
  split; [reflexivity|]. split; [reflexivity|].
  apply (count_fingers_single_point Simple.findContours Simple.convexHull
           Simple.circle simple_circle_shape [U8 Sample.mask] 0
           Sample.mask (3, 0)%Z);
    reflexivity.
Defined.

Lemma count_fingers_no_skip_witness :
  [U8 Sample.mask] !! 0 = Some (U8 Sample.mask) /\
  Simple.convexHull Sample.flat <> [] /\
  exists h',
    count_fingers Simple.findContours Simple.convexHull Simple.circle
      0 Sample.flat [U8 Sample.mask]
    = (Ret (Z.of_nat
              (length
                 (filter (is_finger 3 2)
                    (Simple.findContours CHAIN_APPROX_NONE
                       (ring_mask Simple.circle Sample.mask (3, 3)%Z 2))))),
       h').
Proof.
  split; [reflexivity|]. split; [discriminate|].
  apply (count_fingers_no_skip Simple.findContours Simple.convexHull
           Simple.circle simple_circle_shape [U8 Sample.mask] 0
           Sample.mask Sample.flat);
    [reflexivity|discriminate].
Defined.

(** C4, as stated: a contour of zero points is not skipped, the call
    raises. *)
Lemma count_fingers_zero_points_raises :
  count_fingers Simple.findContours Simple.convexHull Simple.circle
    0 [] [U8 Sample.mask]
  = (Raise ValueError, [U8 Sample.mask]).
Proof. reflexivity. Qed.

(** A contour of zero area is not skipped either: the flat contour of
    two points is counted like any other, here with one finger. *)
Lemma count_fingers_zero_area_counted :
  (Simple.contourArea Sample.flat == 0)%Q /\
  (count_fingers Simple.findContours Simple.convexHull Simple.circle
     0 Sample.flat [U8 Sample.mask]).1
  = Ret 1%Z.
Proof. split; reflexivity. Qed.

Lemma segment_keeps_background_witness :
  Sample.store !! 1 = Some (F32 Sample.dark) /\
  (60 <= 60)%Z /\
  (segment Simple.findContours Simple.contourArea 0 1 25 Sample.store).2
    !! 1 = Some (F32 Sample.dark) /\
  preserved Sample.store
    (run Simple.findContours Simple.contourArea Simple.convexHull
       Simple.circle [Sample.frame; Sample.frame]
       {| num_frames := 60; background := Some 1; fingers := None |}
       Sample.store).2.
Proof.
  destruct (segment_keeps_background Simple.findContours Simple.contourArea
              Simple.convexHull Simple.circle Sample.store 0 1 25)
    as (Hbg & _ & Hrun).
  split; [reflexivity|]. split; [lia|]. split.
  - apply Hbg. reflexivity.
  - apply (Hrun [Sample.frame; Sample.frame]
             {| num_frames := 60; background := Some 1; fingers := None |}).
    cbn. lia.
Defined.


(** * Further properties on the sample inputs *)

Lemma calc_accum_avg_writes_background_only_witness :
  Sample.store !! 0 = Some (U8 Sample.frame) /\
  Some 1 <> Some 0 /\
  (calc_accum_avg 0 accumulated_weight (Some 1) Sample.store).2 !! 0
  = Some (U8 Sample.frame).
Proof.
  split; [reflexivity|]. split; [discriminate|].
  apply (calc_accum_avg_writes_background_only Sample.store 0
           accumulated_weight (Some 1) 0 (U8 Sample.frame));
    [reflexivity|discriminate].
Defined.

Lemma calc_accum_avg_mismatch_witness :
  [U8 Sample.frame; F32 Sample.wide] !! 0 = Some (U8 Sample.frame) /\
  [U8 Sample.frame; F32 Sample.wide] !! 1 = Some (F32 Sample.wide) /\
  shape Sample.frame <> shape Sample.wide /\
  (calc_accum_avg 0 accumulated_weight (Some 1)
     [U8 Sample.frame; F32 Sample.wide]).1 = Raise cv_error.
Proof.
  split; [reflexivity|]. split; [reflexivity|]. split; [discriminate|].
  apply (calc_accum_avg_mismatch [U8 Sample.frame; F32 Sample.wide] 0 1
           Sample.frame Sample.wide accumulated_weight);
    [reflexivity|reflexivity|discriminate].
Defined.


Lemma segment_still_witness :
  [U8 (map_grid (fun _ => 0%Z) Sample.frame); F32 Sample.dark] !! 0
  = Some (U8 (map_grid (fun _ => 0%Z) Sample.frame)) /\
  [U8 (map_grid (fun _ => 0%Z) Sample.frame); F32 Sample.dark] !! 1
  = Some (F32 Sample.dark) /\
  within_threshold 25 Sample.dark (map_grid (fun _ => 0%Z) Sample.frame) /\
  exists h',
    segment Simple.findContours Simple.contourArea 0 1 25
      [U8 (map_grid (fun _ => 0%Z) Sample.frame); F32 Sample.dark]
    = (Ret None, h').
Proof.
  assert (W : within_threshold 25 Sample.dark
                (map_grid (fun _ => 0%Z) Sample.frame)).
  { unfold within_threshold.
    repeat (constructor; [|]);
      first [constructor | (vm_compute; discriminate)]. }
  split; [reflexivity|]. split; [reflexivity|]. split; [exact W|].
  apply (segment_still Simple.findContours Simple.contourArea
           [U8 (map_grid (fun _ => 0%Z) Sample.frame); F32 Sample.dark]
           0 1 (map_grid (fun _ => 0%Z) Sample.frame) Sample.dark 25);
    [reflexivity|reflexivity|exact W|reflexivity].
Defined.


Lemma count_fingers_keeps_arrays_witness :
  [U8 Sample.mask] !! 0 = Some (U8 Sample.mask) /\
  (count_fingers Simple.findContours Simple.convexHull Simple.circle
     0 Sample.diamond [U8 Sample.mask]).2 !! 0
  = Some (U8 Sample.mask).
Proof.
  split; [reflexivity|].
  apply (count_fingers_keeps_arrays Simple.findContours Simple.convexHull
           Simple.circle [U8 Sample.mask] 0 Sample.diamond 0
           (U8 Sample.mask)).
  reflexivity.
Defined.


Lemma count_fingers_bounds_witness :
  [U8 Sample.mask] !! 0 = Some (U8 Sample.mask) /\
  Simple.convexHull Sample.diamond <> [] /\
  exists n h',
    count_fingers Simple.findContours Simple.convexHull Simple.circle
      0 Sample.diamond [U8 Sample.mask] = (Ret n, h') /\
    (0 <= n
     <= Z.of_nat
          (length
             (Simple.findContours CHAIN_APPROX_NONE
                (ring_mask Simple.circle Sample.mask (3, 3)%Z 2))))%Z.
Proof.
  split; [reflexivity|]. split; [discriminate|].
  apply (count_fingers_bounds Simple.findContours Simple.convexHull
           Simple.circle simple_circle_shape [U8 Sample.mask] 0
           Sample.mask Sample.diamond);
    [reflexivity|discriminate].
Defined.

Lemma extreme_points_spec_witness :
  Simple.convexHull Sample.diamond <> [] /\
  exists top : point,
    extreme argmin snd (Simple.convexHull Sample.diamond) []
    = (Ret top, []) /\
    top ∈ Simple.convexHull Sample.diamond.
Proof.
  split; [discriminate|].
  destruct (extreme_points_spec (Simple.convexHull Sample.diamond) []
              ltac:(discriminate))
    as (top & bottom & left & right & Et & _ & _ & _ & Ht & _).
  exists top. auto.
Defined.


Lemma count_fingers_tiny_hull_witness :
  [U8 Sample.mask] !! 0 = Some (U8 Sample.mask) /\
  Simple.convexHull [(3, 0); (4, 0)]%Z <> [] /\
  (max_sq_distance (3, 0)%Z [(3, 0); (4, 0); (3, 0); (3, 0)]%Z <= 1)%Z /\
  exists h',
    count_fingers Simple.findContours Simple.convexHull Simple.circle
      0 [(3, 0); (4, 0)]%Z [U8 Sample.mask]
    = (Ret 0%Z, h').
Proof.
  split; [reflexivity|]. split; [discriminate|].
  split; [vm_compute; discriminate|].
  apply (count_fingers_tiny_hull Simple.findContours Simple.convexHull
           Simple.circle simple_circle_shape [U8 Sample.mask] 0
           Sample.mask [(3, 0); (4, 0)]%Z);
    [reflexivity|discriminate|vm_compute; discriminate].
Defined.

Lemma run_counts_frames_witness :
  exists s' h',
    run Simple.findContours Simple.contourArea Simple.convexHull
      Simple.circle [Sample.frame; Sample.frame] session0 []
    = (Ret s', h') /\
    num_frames s' = 2%Z /\ is_Some (background s').
Proof.
  eexists _, _. split; [reflexivity|].
  destruct (run_counts_frames Simple.findContours Simple.contourArea
              Simple.convexHull Simple.circle
              [Sample.frame; Sample.frame] session0 _ [] _ eq_refl)
    as [N B].
  split; [exact N|]. apply B. discriminate.
Defined.

Lemma still_scene_no_fingers_witness :
  uint8_grid Sample.frame /\
  Simple.findContours CHAIN_APPROX_SIMPLE
    (map_grid (fun _ => 0%Z) Sample.frame) = [] /\
  exists s' h',
    run Simple.findContours Simple.contourArea Simple.convexHull
      Simple.circle (replicate 62 Sample.frame) session0 []
    = (Ret s', h') /\
    num_frames s' = Z.of_nat 62 /\
    fingers s' = None.
Proof.
  assert (U : uint8_grid Sample.frame).
  { unfold uint8_grid. repeat (constructor; [|]);
      first [lia | constructor]. }
  split; [exact U|]. split; [reflexivity|].
  apply (still_scene_no_fingers Simple.findContours Simple.contourArea
           Simple.convexHull Simple.circle Sample.frame 62 []);
    [exact U|reflexivity].
Defined.

Lemma run_keeps_background_object_witness :
  background {| num_frames := 59; background := Some 1; fingers := None |}
  = Some 1 /\
  exists s' h',
    run Simple.findContours Simple.contourArea Simple.convexHull
      Simple.circle [Sample.frame; Sample.frame]
      {| num_frames := 59; background := Some 1; fingers := None |}
      Sample.store
    = (Ret s', h') /\
    background s' = Some 1.
Proof.
  split; [reflexivity|]. eexists _, _. split; [reflexivity|].
  apply (run_keeps_background_object Simple.findContours Simple.contourArea
           Simple.convexHull Simple.circle [Sample.frame; Sample.frame]
           {| num_frames := 59; background := Some 1; fingers := None |}
           _ 1 Sample.store _ eq_refl eq_refl).
Defined.

Lemma warm_up_is_silent_witness :
  fingers session0 = None /\
  (num_frames session0 + Z.of_nat 2 <= 60)%Z /\
  exists s' h',
    run Simple.findContours Simple.contourArea Simple.convexHull
      Simple.circle [Sample.frame; Sample.frame] session0 []
    = (Ret s', h') /\
    fingers s' = None.
Proof.
  split; [reflexivity|]. split; [cbn; lia|].
  eexists _, _. split; [reflexivity|].
  apply (warm_up_is_silent Simple.findContours Simple.contourArea
           Simple.convexHull Simple.circle [Sample.frame; Sample.frame]
           session0 _ [] _ eq_refl ltac:(cbn; lia) eq_refl).
Defined.
